(** * siocoutq: the RDS multi-socket probe tool (tests/siocoutq.c)

    A shallow embedding of the probing engine of [tests/siocoutq.c]:
    the per-socket send loop, the outbound-queue spin loop, the sequential
    scheduler, socket creation, the timed run and the option handling of
    [main].

    The operating system is an oracle [Env]: every system or library call
    is answered from the history of the calls made so far, and every call
    and every line of output is appended to the [trace] of the program
    state.  Integers are [Z] with C's conversions written out. *)

From Equations Require Import Equations.
From Equations.Prop Require Import Logic.
From Stdlib Require Import String Ascii ZArith List Bool Lia.
From Stdlib Require QArith.
Import ListNotations.
Open Scope Z_scope.

(** ** Machine integers (LP64) *)

Module CInt.

Definition wrap_u64 (x : Z) : Z := x mod 2 ^ 64.

Definition wrap_s64 (x : Z) : Z := (x + 2 ^ 63) mod 2 ^ 64 - 2 ^ 63.

(** [(int)x] for an [unsigned long] or [long] value. *)
Definition to_int (x : Z) : Z := (x + 2 ^ 31) mod 2 ^ 32 - 2 ^ 31.

(** [val <<= k] on an [unsigned long long]. *)
Definition shl_u64 (x k : Z) : Z := wrap_u64 (Z.shiftl x k).

(** [htons] on a little-endian host. *)
Definition htons (x : Z) : Z :=
  Z.lor (Z.shiftl (Z.land x 255) 8) (Z.land (Z.shiftr x 8) 255).

End CInt.

(** ** Constants of the system headers *)

Definition AF_UNSPEC : Z := 0.
Definition AF_INET : Z := 2.
Definition AF_INET6 : Z := 10.
Definition PF_RDS : Z := 21.
Definition SOCK_DGRAM : Z := 2.
Definition SOCK_SEQPACKET : Z := 5.
Definition sizeof_sockaddr_in : Z := 16.
Definition sizeof_sockaddr_in6 : Z := 28.

(** The spin ceiling of [spin_on_one_socket]. *)
Definition SPIN_MAX : Z := 100000.

(** ** Data *)

(** [struct timeval]. *)
Record timeval := mkTimeval { tv_sec : Z; tv_usec : Z }.

(** [union sockaddr_ip]: [sin_family]/[sin6_family] and
    [sin_port]/[sin6_port] share their offsets in both members, so one
    family field and one port field stand for both views. *)
Record sockaddr_ip := mkSockaddr { sin_family : Z; sin_port : Z; sin_addr : Z }.

Definition sockaddr_zero : sockaddr_ip := mkSockaddr 0 0 0.

Definition set_port (p : Z) (a : sockaddr_ip) : sockaddr_ip :=
  mkSockaddr (sin_family a) p (sin_addr a).

(** [struct socket]: [run_test] only ever writes [fd]; [sent_id],
    [sent_ts] and [nreplies] are never written or read in this program. *)
Record socket := mkSocket { fd : Z }.

(** What [strtoull(ptr, &endptr, 0)] yields on an option argument: the
    value, an [unsigned long long], and the text left at [endptr]. *)
Record strtoull_result := mkStrtoull { su_val : Z; su_end : string }.

(** One option as [getopt(argc, argv, "c:n:I:Q:s")] returns it: the
    option character with its [optarg]; [Opt_unknown] is any return
    value that falls to the [default] label. *)
Inductive getopt_item :=
| Opt_c (optarg : strtoull_result)
| Opt_n (optarg : strtoull_result)
| Opt_I (optarg : string)
| Opt_Q (optarg : strtoull_result)
| Opt_s
| Opt_unknown.

(** A line written to standard output. *)
Inductive output :=
| OutSpun (spin_count idx : Z)
    (* "Spun for %d counts on socket %d\n" *)
| OutSummary (n_sockets tdiff packets : Z).
    (* "%d sockets took %f msec to send and spin for %d packets\n";
       [tdiff] is the integer that is converted to [float] and printed. *)

(** What the program does to the outside world, one event per call. *)
Inductive event :=
| EvSocket (domain type protocol ret : Z)
| EvConnect (sock : Z) (addr : sockaddr_ip) (alen ret : Z)
| EvGetsockname (sock ret : Z) (addr : sockaddr_ip)
| EvClose (sock : Z)
| EvBind (sock : Z) (addr : sockaddr_ip) (alen ret : Z)
| EvSetTos (sock tos ret : Z)
| EvSendto (sock : Z) (dst : sockaddr_ip) (msglen ret err : Z)
| EvOutq (sock ret pend : Z)
| EvGettimeofday (tv : timeval)
| EvGetaddrinfo (node : string) (numeric : bool) (ret : Z)
| EvStdout (line : output)
| EvStderr (msg : string) (err : option Z).
    (* a diagnostic; [err] is the [errno] that [die_errno] prints with it *)

(** The history handed to the oracle is the trace, newest event first. *)
Definition history := list event.

(** The environment: each call returns its value and the [errno] it
    leaves behind, as a function of everything that happened before. *)
Record Env := mkEnv {
  env_socket : history -> Z -> Z -> Z -> Z * Z;
  env_connect : history -> Z -> sockaddr_ip -> Z -> Z * Z;
  env_getsockname : history -> Z -> Z * Z * sockaddr_ip;
  env_bind : history -> Z -> sockaddr_ip -> Z -> Z * Z;
  env_settos : history -> Z -> Z -> Z * Z;
  env_sendto : history -> Z -> sockaddr_ip -> Z -> Z * Z;
  env_outq : history -> Z -> Z * Z * Z;
  env_gettimeofday : history -> timeval;
  env_getaddrinfo : history -> string -> bool -> Z * sockaddr_ip
}.

(** ** Program state: the file-scope variables, [errno] and the trace *)

Record state := mkState {
  opt_count : Z;
  opt_srcaddr : sockaddr_ip;
  opt_dstaddr : sockaddr_ip;
  opt_tos : Z;
  use_siocoutq : bool;
  nsockets : Z;
  errno : Z;
  trace : history
}.

Definition nsockets_min : Z := 1.
Definition nsockets_max : Z := 32.

(** The statics as the loader initialises them. *)
Definition init_state : state :=
  mkState 0 sockaddr_zero sockaddr_zero 0 false 8 0 [].

Definition set_opt_count (v : Z) (s : state) : state :=
  mkState v (opt_srcaddr s) (opt_dstaddr s) (opt_tos s) (use_siocoutq s)
          (nsockets s) (errno s) (trace s).
Definition set_opt_srcaddr (v : sockaddr_ip) (s : state) : state :=
  mkState (opt_count s) v (opt_dstaddr s) (opt_tos s) (use_siocoutq s)
          (nsockets s) (errno s) (trace s).
Definition set_opt_dstaddr (v : sockaddr_ip) (s : state) : state :=
  mkState (opt_count s) (opt_srcaddr s) v (opt_tos s) (use_siocoutq s)
          (nsockets s) (errno s) (trace s).
Definition set_opt_tos (v : Z) (s : state) : state :=
  mkState (opt_count s) (opt_srcaddr s) (opt_dstaddr s) v (use_siocoutq s)
          (nsockets s) (errno s) (trace s).
Definition set_use_siocoutq (v : bool) (s : state) : state :=
  mkState (opt_count s) (opt_srcaddr s) (opt_dstaddr s) (opt_tos s) v
          (nsockets s) (errno s) (trace s).
Definition set_nsockets (v : Z) (s : state) : state :=
  mkState (opt_count s) (opt_srcaddr s) (opt_dstaddr s) (opt_tos s)
          (use_siocoutq s) v (errno s) (trace s).

(** A call was made: remember [errno] and log the event. *)
Definition record (e : Z) (ev : event) (s : state) : state :=
  mkState (opt_count s) (opt_srcaddr s) (opt_dstaddr s) (opt_tos s)
          (use_siocoutq s) (nsockets s) e (ev :: trace s).

(** Output only: [errno] is left alone. *)
Definition emit (ev : event) (s : state) : state :=
  record (errno s) ev s.

(** ** The monad: state passing, with [exit] *)

Inductive outcome (A : Type) :=
| Ret (a : A)
| Exit (status : Z).
Arguments Ret {A} a.
Arguments Exit {A} status.

Definition M (A : Type) : Type := state -> outcome A * state.

Definition ret {A} (a : A) : M A := fun s => (Ret a, s).

Definition bind {A B} (c : M A) (k : A -> M B) : M B :=
  fun s =>
    match c s with
    | (Ret a, s1) => k a s1
    | (Exit st, s1) => (Exit st, s1)
    end.

Definition get : M state := fun s => (Ret s, s).
Definition modify (f : state -> state) : M unit := fun s => (Ret tt, f s).
Definition exit {A} (status : Z) : M A := fun s => (Exit status, s).

Notation "x <- c ;; k" := (bind c (fun x => k))
  (at level 61, c at next level, right associativity).
Notation "c ;;; k" := (bind c (fun _ => k))
  (at level 61, right associativity).

(** [die(fmt...)]: message on stderr, [exit(1)]. *)
Definition die {A} (msg : string) : M A :=
  modify (emit (EvStderr msg None)) ;;; exit 1.

(** [die_errno]: as [die], the message ending in [errno] and its text. *)
Definition die_errno {A} (msg : string) : M A :=
  s <- get ;;
  modify (emit (EvStderr msg (Some (errno s)))) ;;; exit 1.

Definition printf (line : output) : M unit := modify (emit (EvStdout line)).

(** ** The program *)

Section Program.

Variable env : Env.

(** *** System and library calls *)

Definition sys_socket (domain type protocol : Z) : M Z := fun s =>
  let '(r, e) := env_socket env (trace s) domain type protocol in
  (Ret r, record e (EvSocket domain type protocol r) s).

Definition sys_connect (sock : Z) (addr : sockaddr_ip) (alen : Z) : M Z :=
  fun s =>
    let '(r, e) := env_connect env (trace s) sock addr alen in
    (Ret r, record e (EvConnect sock addr alen r) s).

Definition sys_getsockname (sock : Z) : M (Z * sockaddr_ip) := fun s =>
  let '(r, e, a) := env_getsockname env (trace s) sock in
  (Ret (r, a), record e (EvGetsockname sock r a) s).

Definition sys_close (sock : Z) : M unit :=
  modify (emit (EvClose sock)).

Definition sys_bind (sock : Z) (addr : sockaddr_ip) (alen : Z) : M Z :=
  fun s =>
    let '(r, e) := env_bind env (trace s) sock addr alen in
    (Ret r, record e (EvBind sock addr alen r) s).

(** [ioctl(fd, SIOCRDSSETTOS, &opt_tos)] *)
Definition sys_ioctl_settos (sock tos : Z) : M Z := fun s =>
  let '(r, e) := env_settos env (trace s) sock tos in
  (Ret r, record e (EvSetTos sock tos r) s).

(** [sendto(fd, NULL, 0, 0, dst, msglen)] *)
Definition sys_sendto (sock : Z) (dst : sockaddr_ip) (msglen : Z) : M Z :=
  fun s =>
    let '(r, e) := env_sendto env (trace s) sock dst msglen in
    (Ret r, record e (EvSendto sock dst msglen r e) s).

(** [ioctl(fd, TIOCOUTQ, &pend)]: the return value and [pend]. *)
Definition sys_ioctl_outq (sock : Z) (s : state) : Z * Z * state :=
  let '(r, e, pend) := env_outq env (trace s) sock in
  (r, pend, record e (EvOutq sock r pend) s).

Definition sys_gettimeofday : M timeval := fun s =>
  let tv := env_gettimeofday env (trace s) in
  (Ret tv, emit (EvGettimeofday tv) s).

(** [getaddrinfo(ptr, NULL, hints, &ainfo)], [numeric] telling whether
    the [AI_NUMERICHOST] hints are passed; the first entry's [ai_addr] is
    returned along with the status, its family field standing for
    [ai_family] as well. *)
Definition sys_getaddrinfo (node : string) (numeric : bool)
  : M (Z * sockaddr_ip) := fun s =>
  let '(r, a) := env_getaddrinfo env (trace s) node numeric in
  (Ret (r, a), emit (EvGetaddrinfo node numeric r) s).

(** *** [usec_sub]: a - b in usecs *)

Definition usec_sub (a b : timeval) : Z :=
  CInt.wrap_s64
    (CInt.wrap_u64
       (CInt.wrap_u64
          (CInt.wrap_u64 (CInt.wrap_s64 (tv_sec a - tv_sec b) * 1000000)
           + tv_usec a)
        - tv_usec b)).

(** *** [send_on_one_socket] *)

(** The [for] loop, [n] iterations left; [ret] is still 0 while it
    runs. *)
Fixpoint send_loop (n : nat) (sock : Z) (dst : sockaddr_ip) (msglen : Z)
  : M Z :=
  match n with
  | O => ret 0
  | S n' =>
      r <- sys_sendto sock dst msglen ;;
      if r =? 0 then send_loop n' sock dst msglen
      else (s <- get ;; ret (errno s))
  end.

Definition send_on_one_socket (sock : Z) (dst : sockaddr_ip)
           (msglen per_sock : Z) : M Z :=
  send_loop (Z.to_nat per_sock) sock dst msglen.

(** *** [spin_on_one_socket] *)

(** Iterations the ceiling still allows. *)
Definition spin_left (sp_cnt : Z) : nat := Z.to_nat (SPIN_MAX - sp_cnt).

(** The [do ... while] loop, entered with the current [sp_cnt]. *)
Equations? spin_loop (sock sp_cnt : Z) (s : state) : Z * state
  by wf (spin_left sp_cnt) lt :=
  spin_loop sock sp_cnt s with sys_ioctl_outq sock s := {
    | (r, pend, s1) with r =? 0 := {
        | false := (- errno s1, s1);
        | true
            with inspect (negb (pend =? 0) && (sp_cnt + 1 <? SPIN_MAX)) := {
            | exist _ true Hc := spin_loop sock (sp_cnt + 1) s1;
            | exist _ false _ := (sp_cnt + 1, s1) } } }.
Proof.
  apply andb_prop in Hc. destruct Hc as [_ Hc].
  apply Z.ltb_lt in Hc.
  change (spin_left (sp_cnt + 1) < spin_left sp_cnt)%nat.
  unfold spin_left. lia.
Qed.

Definition spin_on_one_socket (sock : Z) : M Z := fun s =>
  let '(sp_cnt, s1) := spin_loop sock 0 s in (Ret sp_cnt, s1).

(** *** [send_on_n_sockets_seq] *)

(** Lines 145-148: the [if (use_siocoutq)] block of the loop body. *)
Definition spin_if_enabled (sock idx : Z) : M unit :=
  s <- get ;;
  if use_siocoutq s then
    spin_count <- spin_on_one_socket sock ;;
    printf (OutSpun spin_count idx)
  else ret tt.

(** The [for] loop over the remaining sockets; [idx] is the index of
    the first of them.  [ret] is 0 whenever the loop test is reached. *)
Fixpoint seq_loop (socks : list socket) (idx : Z) (dst : sockaddr_ip)
         (per_sock msglen : Z) : M Z :=
  match socks with
  | [] => ret 0
  | sk :: rest =>
      r <- send_on_one_socket (fd sk) dst msglen per_sock ;;
      if negb (r =? 0) then ret r
      else
        spin_if_enabled (fd sk) idx ;;;
        seq_loop rest (idx + 1) dst per_sock msglen
  end.

(** [nsocks] holds at least [n_socks] entries at the only call site;
    the loop visits the first [n_socks] of them. *)
Definition send_on_n_sockets_seq (nsocks : list socket) (dst : sockaddr_ip)
           (n_socks per_sock msglen : Z) : M Z :=
  seq_loop (firstn (Z.to_nat n_socks) nsocks) 0 dst per_sock msglen.

(** *** [rds_socket]

    Its only caller passes [&opt_srcaddr] and [&opt_dstaddr]; the writes
    through [src] and [dst] are writes to these two variables. *)

(** Guess the local source addr if not given. *)
Definition guess_source : M unit :=
  s <- get ;;
  let dst := opt_dstaddr s in
  ufd <- sys_socket (sin_family dst) SOCK_DGRAM 0 ;;
  if ufd <? 0 then die_errno "unable to create UDP socket"
  else
    if negb ((sin_family dst =? AF_INET) || (sin_family dst =? AF_INET6))
    then die_errno "unknown destination address family"
    else
      let alen := if sin_family dst =? AF_INET then sizeof_sockaddr_in
                  else sizeof_sockaddr_in6 in
      modify (set_opt_dstaddr (set_port (CInt.htons 1) dst)) ;;;
      s1 <- get ;;
      r <- sys_connect ufd (opt_dstaddr s1) alen ;;
      if r <? 0 then die_errno "unable to connect to %s"
      else
        (* Remember to reset the destination port. *)
        modify (fun s2 => set_opt_dstaddr (set_port 0 (opt_dstaddr s2)) s2) ;;;
        ra <- sys_getsockname ufd ;;
        modify (set_opt_srcaddr (snd ra)) ;;;
        if fst ra <? 0 then die_errno "getsockname failed"
        else sys_close ufd.

Definition rds_socket : M Z :=
  sock <- sys_socket PF_RDS SOCK_SEQPACKET 0 ;;
  if sock <? 0 then die_errno "unable to create RDS socket"
  else
    s <- get ;;
    (if sin_family (opt_srcaddr s) =? AF_UNSPEC then guess_source
     else ret tt) ;;;
    s1 <- get ;;
    let src := opt_srcaddr s1 in
    if negb ((sin_family src =? AF_INET) || (sin_family src =? AF_INET6))
    then die "unknown source address family"
    else
      let alen := if sin_family src =? AF_INET then sizeof_sockaddr_in
                  else sizeof_sockaddr_in6 in
      modify (set_opt_srcaddr (set_port 0 src)) ;;;
      s2 <- get ;;
      r <- sys_bind sock (opt_srcaddr s2) alen ;;
      if negb (r =? 0) then die_errno "bind() failed"
      else
        (if negb (opt_tos s2 =? 0) then
           rt <- sys_ioctl_settos sock (opt_tos s2) ;;
           if negb (rt =? 0) then die_errno "ERROR: failed to set TOS"
           else ret tt
         else ret tt) ;;;
        ret sock.

(** *** [run_test] *)

(** The socket-creating loop, [n] iterations left. *)
Fixpoint create_sockets (n : nat) : M (list socket) :=
  match n with
  | O => ret []
  | S n' =>
      sock <- rds_socket ;;
      rest <- create_sockets n' ;;
      ret (mkSocket sock :: rest)
  end.

(** [usec_sub(&end, &start) / 1000]: a [long] divided by an [int],
    the quotient then converted to [float] for [tdiff]. *)
Definition tdiff_of (tend tstart : timeval) : Z :=
  Z.quot (usec_sub tend tstart) 1000.

Definition run_test : M Z :=
  s <- get ;;
  socks <- create_sockets (Z.to_nat (nsockets s)) ;;
  s1 <- get ;;
  (* Family check is already done earlier - just set length. *)
  let dst_len := if sin_family (opt_dstaddr s1) =? AF_INET
                 then sizeof_sockaddr_in else sizeof_sockaddr_in6 in
  tstart <- sys_gettimeofday ;;
  _ <- send_on_n_sockets_seq socks (opt_dstaddr s1)
         (CInt.to_int (nsockets s1)) (CInt.to_int (opt_count s1)) dst_len ;;
  tend <- sys_gettimeofday ;;
  let tdiff := tdiff_of tend tstart in
  printf (OutSummary (CInt.to_int (nsockets s1)) tdiff
            (CInt.to_int (CInt.wrap_u64 (opt_count s1 * nsockets s1)))) ;;;
  ret 0.

(** *** [usage], [parse_long], [parse_addr] *)

Definition usage {A} (complaint : string) : M A :=
  modify (emit (EvStderr complaint None)) ;;; exit 1.

(** [parse_long]: [None] is "return 0" ([*ret] untouched), [Some v] is
    "[*ret = v]; return 1".  The argument is what
    [strtoull(ptr, &endptr, 0)] produced. *)
Definition parse_long (a : strtoull_result) : option Z :=
  let '(val, endptr) :=
    match su_end a with
    | String c rest =>
        if (c =? "k")%char || (c =? "K")%char
        then (CInt.shl_u64 (su_val a) 10, rest)
        else if (c =? "m")%char || (c =? "M")%char
        then (CInt.shl_u64 (su_val a) 20, rest)
        else if (c =? "g")%char || (c =? "G")%char
        then (CInt.shl_u64 (su_val a) 30, rest)
        else (su_val a, su_end a)
    | EmptyString => (su_val a, EmptyString)
    end in
  match endptr with
  | EmptyString => Some val
  | String _ _ => None
  end.

(** [parse_addr(ptr, ret)], [store] being the assignment through
    [ret].  We just return the address here without checking if the
    returned address matches the correct family. *)
Definition parse_addr (ptr : string)
           (store : sockaddr_ip -> state -> state) : M Z :=
  (* passing hints to avoid netlink syscall as possible *)
  ra <- sys_getaddrinfo ptr true ;;
  rb <- (if negb (fst ra =? 0) then sys_getaddrinfo ptr false
         else ret ra) ;;
  if negb (fst rb =? 0) then ret 0
  else
    (* Just use the first one returned. *)
    let a := snd rb in
    if (sin_family a =? AF_INET) || (sin_family a =? AF_INET6)
    then modify (store a) ;;; ret 1
    else die "getaddrinfo() returns unsupported family: %d".

(** *** [main] *)

(** The [while ((c = getopt(...)) != -1)] loop over the options that
    [getopt] hands out, with the locals [src_set] and [num_sock_set]. *)
Fixpoint getopt_loop (opts : list getopt_item)
         (src_set num_sock_set : bool) : M (bool * bool) :=
  match opts with
  | [] => ret (src_set, num_sock_set)
  | o :: rest =>
      match o with
      | Opt_c optarg =>
          match parse_long optarg with
          | None => die "Bad packet count <%s>"
          | Some v =>
              modify (set_opt_count v) ;;;
              getopt_loop rest src_set num_sock_set
          end
      | Opt_n optarg =>
          match parse_long optarg with
          | None => die "Invalid number of sockets <%s>"
          | Some v =>
              modify (set_nsockets v) ;;;
              if (v <? nsockets_min) || (v >? nsockets_max)
              then die "Invalid number of sockets <%s>"
              else getopt_loop rest src_set true
          end
      | Opt_I optarg =>
          r <- parse_addr optarg set_opt_srcaddr ;;
          if r =? 0 then die "Unknown source address <%s>"
          else getopt_loop rest true num_sock_set
      | Opt_Q optarg =>
          match parse_long optarg with
          | None => die "Bad tos <%s>"
          | Some v =>
              modify (set_opt_tos v) ;;;
              getopt_loop rest src_set num_sock_set
          end
      | Opt_s =>
          modify (set_use_siocoutq true) ;;;
          getopt_loop rest src_set num_sock_set
      | Opt_unknown => usage "Unknown option"
      end
  end.

(** Lines 386-388: the family check. *)
Definition check_family (src_set : bool) : M unit :=
  s <- get ;;
  if src_set
     && negb (sin_family (opt_dstaddr s) =? sin_family (opt_srcaddr s))
  then die "Source and destination address family are not the same"
  else ret tt.

(** Lines 390-391: the group is no larger than the packet count. *)
Definition clamp_nsockets (num_sock_set : bool) : M unit :=
  s <- get ;;
  if negb num_sock_set && negb (opt_count s =? 0)
     && (opt_count s <? nsockets s)
  then modify (set_nsockets (opt_count s))
  else ret tt.

(** [opts] are the options in the order [getopt] returns them,
    [operands] is [argv[optind .. argc-1]]. *)
Definition main (opts : list getopt_item) (operands : list string) : M Z :=
  flags <- getopt_loop opts false false ;;
  let '(src_set, num_sock_set) := flags in
  match operands with
  | [dst] =>
      r <- parse_addr dst set_opt_dstaddr ;;
      if r =? 0 then die "Cannot parse destination address <%s>"
      else
        check_family src_set ;;;
        clamp_nsockets num_sock_set ;;;
        run_test
  | _ => usage "Missing destination address"
  end.

End Program.

(** ** Reading a trace *)

(** The events of a run from [s] to [s'], oldest first. *)
Definition events_since (s s' : state) : list event :=
  rev (firstn (List.length (trace s') - List.length (trace s)) (trace s')).

(** The [sendto] calls of a list of events: socket, return value and the
    [errno] left behind. *)
Fixpoint sends_of (evs : list event) : list (Z * Z * Z) :=
  match evs with
  | [] => []
  | EvSendto sock _ _ r e :: rest => (sock, r, e) :: sends_of rest
  | _ :: rest => sends_of rest
  end.

(** The outbound-queue queries: socket, return value and [pend]. *)
Fixpoint queries_of (evs : list event) : list (Z * Z * Z) :=
  match evs with
  | [] => []
  | EvOutq sock r pend :: rest => (sock, r, pend) :: queries_of rest
  | _ :: rest => queries_of rest
  end.

(** The descriptors of the RDS sockets that were created. *)
Fixpoint rds_sockets_of (evs : list event) : list Z :=
  match evs with
  | [] => []
  | EvSocket domain type _ r :: rest =>
      if (domain =? PF_RDS) && (type =? SOCK_SEQPACKET) && (0 <=? r)
      then r :: rds_sockets_of rest else rds_sockets_of rest
  | _ :: rest => rds_sockets_of rest
  end.

(** Every [socket()] call, whatever its arguments and result. *)
Fixpoint socket_calls_of (evs : list event) : list event :=
  match evs with
  | [] => []
  | EvSocket d t p r :: rest => EvSocket d t p r :: socket_calls_of rest
  | _ :: rest => socket_calls_of rest
  end.

(** The lines on standard output. *)
Fixpoint stdout_of (evs : list event) : list output :=
  match evs with
  | [] => []
  | EvStdout line :: rest => line :: stdout_of rest
  | _ :: rest => stdout_of rest
  end.

(** A [sendto] that went through: it returned 0. *)
Definition send_ok (x : Z * Z * Z) : Prop := snd (fst x) = 0.

(** The sends of one socket that completed all [per_sock] of them. *)
Definition full_sends (per_sock : Z) (sk : socket) : list (Z * Z) :=
  repeat (fd sk, 0) (Z.to_nat per_sock).

(** ** Simulated environments *)

Module Sim.

(** Descriptors are handed out from 3 upwards. *)
Definition next_fd (h : history) : Z :=
  3 + Z.of_nat (List.length (socket_calls_of h)).

(** The family of the address the helper socket was connected to. *)
Fixpoint connected_family (h : history) : Z :=
  match h with
  | [] => AF_INET
  | EvConnect _ a _ _ :: _ => sin_family a
  | _ :: rest => connected_family rest
  end.

Definition resolve (node : string) (numeric : bool) : Z * sockaddr_ip :=
  if (node =? "127.0.0.1")%string then (0, mkSockaddr AF_INET 0 2130706433)
  else if (node =? "10.0.0.1")%string then (0, mkSockaddr AF_INET 0 167772161)
  else if (node =? "::1")%string then (0, mkSockaddr AF_INET6 0 1)
  else (-2, sockaddr_zero).

(** The clock advances 700 microseconds per event. *)
Definition clock (h : history) : timeval :=
  mkTimeval 0 (700 * Z.of_nat (List.length h)).

(** Everything succeeds; the outbound queue is always empty. *)
Definition env_ok : Env :=
  mkEnv (fun h _ _ _ => (next_fd h, 0))
        (fun _ _ _ _ => (0, 0))
        (fun h _ => (0, 0, mkSockaddr (connected_family h) 4660 16777343))
        (fun _ _ _ _ => (0, 0))
        (fun _ _ _ => (0, 0))
        (fun _ _ _ _ => (0, 0))
        (fun _ _ => (0, 0, 0))
        clock
        (fun _ => resolve).

(** As [env_ok], but every [sendto] after the first [n] fails with
    [errno] [e]. *)
Definition env_send_fails_after (n : nat) (e : Z) : Env :=
  mkEnv (env_socket env_ok) (env_connect env_ok) (env_getsockname env_ok)
        (env_bind env_ok) (env_settos env_ok)
        (fun h _ _ _ =>
           if (List.length (sends_of h) <? n)%nat then (0, 0) else (-1, e))
        (env_outq env_ok) (env_gettimeofday env_ok)
        (env_getaddrinfo env_ok).

(** As [env_ok], but the outbound queue never drains. *)
Definition env_never_drains : Env :=
  mkEnv (env_socket env_ok) (env_connect env_ok) (env_getsockname env_ok)
        (env_bind env_ok) (env_settos env_ok) (env_sendto env_ok)
        (fun _ _ => (0, 0, 1)) (env_gettimeofday env_ok)
        (env_getaddrinfo env_ok).

Definition ECONNREFUSED : Z := 111.

End Sim.

(** ** Vocabulary of the statements *)

(** [grows s s' new]: from [s] to [s'] exactly the events [new] happened,
    oldest first. *)
Definition grows (s s' : state) (new : list event) : Prop :=
  trace s' = rev new ++ trace s.

(** The file-scope option variables. *)
Definition config (s : state) :=
  (opt_count s, opt_srcaddr s, opt_dstaddr s, opt_tos s, use_siocoutq s,
   nsockets s).

(** The option variables that socket creation leaves alone. *)
Definition knobs (s : state) :=
  (opt_count s, opt_tos s, use_siocoutq s, nsockets s).

(** The query on [sock] never fails. *)
Definition query_never_fails (env : Env) (sock : Z) : Prop :=
  forall h, fst (fst (env_outq env h sock)) = 0.

(** The query on [sock] always reports bytes pending. *)
Definition always_pending (env : Env) (sock : Z) : Prop :=
  forall h, 0 < snd (env_outq env h sock).

(** A [sendto] on [sock] that returned 0. *)
Definition ok_on (sock : Z) (x : Z * Z * Z) : Prop :=
  fst (fst x) = sock /\ snd (fst x) = 0.

(** The shape of the [sendto] calls of a scheduler run over [socks] and
    the value it returns.  Each socket in turn has its [per_sock]
    successful sends; a failing send ends the socket's turn, and ends the
    run when it leaves a non-zero [errno], which is then the result. *)
Inductive seq_shape (per_sock : nat)
  : list socket -> list (Z * Z * Z) -> Z -> Prop :=
| shape_done : seq_shape per_sock [] [] 0
| shape_next sk rest oks sends r :
    Forall (ok_on (fd sk)) oks ->
    List.length oks = per_sock ->
    seq_shape per_sock rest sends r ->
    seq_shape per_sock (sk :: rest) (oks ++ sends) r
| shape_fail sk rest oks rv e :
    Forall (ok_on (fd sk)) oks ->
    (List.length oks < per_sock)%nat ->
    rv <> 0 -> e <> 0 ->
    seq_shape per_sock (sk :: rest) (oks ++ [(fd sk, rv, e)]) e
| shape_fail_errno0 sk rest oks rv sends r :
    Forall (ok_on (fd sk)) oks ->
    (List.length oks < per_sock)%nat ->
    rv <> 0 ->
    seq_shape per_sock rest sends r ->
    seq_shape per_sock (sk :: rest) (oks ++ (fd sk, rv, 0) :: sends) r.

(** The packet count the options leave in [opt_count], starting from
    [c0]: the value of the last [-c]. *)
Fixpoint final_count (opts : list getopt_item) (c0 : Z) : Z :=
  match opts with
  | [] => c0
  | Opt_c a :: rest =>
      final_count rest (match parse_long a with Some v => v | None => c0 end)
  | _ :: rest => final_count rest c0
  end.

(** Whether a [-n] option is among the options. *)
Definition sets_nsockets (opts : list getopt_item) : bool :=
  existsb (fun o => match o with Opt_n _ => true | _ => false end) opts.

(** Whether a [-I] option is among the options. *)
Definition sets_source (opts : list getopt_item) : bool :=
  existsb (fun o => match o with Opt_I _ => true | _ => false end) opts.

(** The state in which [main] calls [run_test], given the state [s] after
    the destination was parsed. *)
Definition clamped (num_sock_set : bool) (s : state) : state :=
  if negb num_sock_set && negb (opt_count s =? 0)
     && (opt_count s <? nsockets s)
  then set_nsockets (opt_count s) s else s.

(** The destination operands of the scenarios. *)
Definition loopback4 : string := "127.0.0.1".

Definition loopback6 : string := "::1".

(** The destination of the scheduler scenarios. *)
Definition loopback_dst : sockaddr_ip := mkSockaddr AF_INET 0 2130706433.

(** Eight sockets, descriptors 3 to 10. *)
Definition probe_group : list socket :=
  map mkSocket [3; 4; 5; 6; 7; 8; 9; 10].

(** The state in which scenario 4 enters [run_test]. *)
Definition scenario4_config : state :=
  set_nsockets 8 (set_opt_count 2 (set_opt_dstaddr loopback_dst init_state)).

(** [siocoutq -c 1 127.0.0.1] *)
Definition scenario1_run : outcome Z * state :=
  main Sim.env_ok [Opt_c (mkStrtoull 1 "")] [loopback4] init_state.

(** [siocoutq -c 2 127.0.0.1] *)
Definition scenario3_run : outcome Z * state :=
  main Sim.env_ok [Opt_c (mkStrtoull 2 "")] [loopback4] init_state.

(** [siocoutq -n 8 -c 2 127.0.0.1], the first send on the third socket
    fails with [ECONNREFUSED]. *)
Definition scenario4_run : outcome Z * state :=
  main (Sim.env_send_fails_after 4 Sim.ECONNREFUSED)
       [Opt_n (mkStrtoull 8 ""); Opt_c (mkStrtoull 2 "")] [loopback4]
       init_state.

(** [siocoutq 127.0.0.1]: no packet count given. *)
Definition default_count_run : outcome Z * state :=
  main Sim.env_ok [] [loopback4] init_state.

(** The scheduler over [probe_group], two sends per socket, the fifth
    [sendto] failing with [ECONNREFUSED]. *)
Definition sched_fail_run : outcome Z * state :=
  send_on_n_sockets_seq (Sim.env_send_fails_after 4 Sim.ECONNREFUSED)
    probe_group loopback_dst 8 2 sizeof_sockaddr_in init_state.

(** The scheduler over two sockets, two sends per socket, all going
    through. *)
Definition sched_ok_run : outcome Z * state :=
  send_on_n_sockets_seq Sim.env_ok [mkSocket 3; mkSocket 4] loopback_dst
    2 2 sizeof_sockaddr_in init_state.

(** All the events of a run of [main]. *)
Definition events_of (run : outcome Z * state) : list event :=
  events_since init_state (snd run).

(** The number of packets that were sent successfully. *)
Definition packets_sent (evs : list event) : Z :=
  Z.of_nat (List.length
              (filter (fun x => snd (fst x) =? 0) (sends_of evs))).

(** The packet totals of the summary lines that were printed. *)
Fixpoint reported_packets (evs : list event) : list Z :=
  match evs with
  | [] => []
  | EvStdout (OutSummary _ _ packets) :: rest =>
      packets :: reported_packets rest
  | _ :: rest => reported_packets rest
  end.

(** The elapsed time in milliseconds with its fraction: the microsecond
    difference over 1000, as a rational. *)
Definition elapsed_msec_exact (tend tstart : timeval) : QArith_base.Q :=
  QArith_base.Qmake (usec_sub tend tstart) 1000.

(** ** Vocabulary of the further properties *)

(** [include/rds.h]: the congestion-monitor macros.  The correspondence
    between bits and ports is 1 << (portnum % 64). *)
Definition RDS_CONG_MONITOR_SIZE : Z := 64.

(** [(((unsigned int) port) % RDS_CONG_MONITOR_SIZE)] *)
Definition RDS_CONG_MONITOR_BIT (port : Z) : Z :=
  (port mod 2 ^ 32) mod RDS_CONG_MONITOR_SIZE.

(** [(1ULL << RDS_CONG_MONITOR_BIT(port))] *)
Definition RDS_CONG_MONITOR_MASK (port : Z) : Z :=
  CInt.shl_u64 1 (RDS_CONG_MONITOR_BIT port).

(** The shift that [parse_long] applies for a suffix character. *)
Definition suffix_shift (c : ascii) : option Z :=
  if (c =? "k")%char || (c =? "K")%char then Some 10
  else if (c =? "m")%char || (c =? "M")%char then Some 20
  else if (c =? "g")%char || (c =? "G")%char then Some 30
  else None.

(** The microsecond difference of two time stamps, without wrap-around. *)
Definition usec_diff (a b : timeval) : Z :=
  (tv_sec a - tv_sec b) * 1000000 + tv_usec a - tv_usec b.

(** A query that went through and found bytes pending. *)
Definition still_pending (q : Z * Z * Z) : Prop :=
  snd (fst q) = 0 /\ snd q <> 0.

(** The "Spun for %d counts on socket %d" lines for consecutive sockets,
    the first of index [idx], with the given spin counts. *)
Fixpoint spun_lines (idx : Z) (counts : list Z) : list output :=
  match counts with
  | [] => []
  | c :: rest => OutSpun c idx :: spun_lines (idx + 1) rest
  end.

(** What the scheduler may do with the group [socks]: send to [dst] on
    one of its descriptors, query the outbound queue of one of its
    descriptors, print a "Spun" line. *)
Definition sched_event (socks : list socket) (dst : sockaddr_ip)
           (msglen : Z) (ev : event) : Prop :=
  (exists sk r e, In sk socks /\ ev = EvSendto (fd sk) dst msglen r e)
  \/ (exists sk r pend, In sk socks /\ ev = EvOutq (fd sk) r pend)
  \/ (exists c i, ev = EvStdout (OutSpun c i)).

(** The [bind] calls: socket, address, length and return value. *)
Fixpoint binds_of (evs : list event) : list (Z * sockaddr_ip * Z * Z) :=
  match evs with
  | [] => []
  | EvBind sock a alen r :: rest => (sock, a, alen, r) :: binds_of rest
  | _ :: rest => binds_of rest
  end.

(** The [SIOCRDSSETTOS] calls: socket, value and return value. *)
Fixpoint settos_of (evs : list event) : list (Z * Z * Z) :=
  match evs with
  | [] => []
  | EvSetTos sock tos r :: rest => (sock, tos, r) :: settos_of rest
  | _ :: rest => settos_of rest
  end.

(** The descriptors that were closed. *)
Fixpoint closes_of (evs : list event) : list Z :=
  match evs with
  | [] => []
  | EvClose sock :: rest => sock :: closes_of rest
  | _ :: rest => closes_of rest
  end.

(** The [sockaddr] length that goes with an address family. *)
Definition sockaddr_len (family : Z) : Z :=
  if family =? AF_INET then sizeof_sockaddr_in else sizeof_sockaddr_in6.

(** An address family the tool works with. *)
Definition inet_family (family : Z) : Prop :=
  family = AF_INET \/ family = AF_INET6.

(** The [socket()] call that creates the RDS socket of a group member. *)
Definition rds_call (sk : socket) : event :=
  EvSocket PF_RDS SOCK_SEQPACKET 0 (fd sk).

(** The successful [bind] of a group member to the source address. *)
Definition bind_call (src : sockaddr_ip) (sk : socket)
  : Z * sockaddr_ip * Z * Z :=
  (fd sk, src, sockaddr_len (sin_family src), 0).

(** The successful [SIOCRDSSETTOS] of a group member. *)
Definition settos_call (tos : Z) (sk : socket) : Z * Z * Z :=
  (fd sk, tos, 0).

(** The readings of the clock. *)
Fixpoint clock_reads_of (evs : list event) : list timeval :=
  match evs with
  | [] => []
  | EvGettimeofday tv :: rest => tv :: clock_reads_of rest
  | _ :: rest => clock_reads_of rest
  end.

(** The group size the options leave in [nsockets], starting from [n0]:
    the value of the last [-n]. *)
Fixpoint final_nsockets (opts : list getopt_item) (n0 : Z) : Z :=
  match opts with
  | [] => n0
  | Opt_n a :: rest =>
      final_nsockets rest
        (match parse_long a with Some v => v | None => n0 end)
  | _ :: rest => final_nsockets rest n0
  end.

(** Whether a [-s] option is among the options. *)
Definition sets_spin (opts : list getopt_item) : bool :=
  existsb (fun o => match o with Opt_s => true | _ => false end) opts.

(** An option that [main] refuses whatever the environment does: an
    unknown one, a number that [parse_long] rejects, a group size outside
    [nsockets_min .. nsockets_max]. *)
Definition rejected_item (o : getopt_item) : bool :=
  match o with
  | Opt_c a | Opt_Q a =>
      match parse_long a with Some _ => false | None => true end
  | Opt_n a =>
      match parse_long a with
      | Some v => (v <? nsockets_min) || (v >? nsockets_max)
      | None => true
      end
  | Opt_I _ | Opt_s => false
  | Opt_unknown => true
  end.

(** The numbers given with [-c] are what [strtoull] can return. *)
Definition unsigned_counts (opts : list getopt_item) : Prop :=
  forall a, In (Opt_c a) opts -> 0 <= su_val a < 2 ^ 64.

(** The [getaddrinfo] calls: node, whether the numeric-host hints were
    passed, and the status. *)
Fixpoint resolver_calls_of (evs : list event) : list (string * bool * Z) :=
  match evs with
  | [] => []
  | EvGetaddrinfo node numeric r :: rest =>
      (node, numeric, r) :: resolver_calls_of rest
  | _ :: rest => resolver_calls_of rest
  end.

(** What [main] does before the run: resolve addresses and complain. *)
Definition resolver_event (ev : event) : Prop :=
  (exists node numeric r, ev = EvGetaddrinfo node numeric r)
  \/ (exists msg err, ev = EvStderr msg err).

(** The group size with which [main] enters [run_test], given the last
    [-n] (if any) and the last [-c]. *)
Definition resolved_nsockets (opts : list getopt_item) : Z :=
  if sets_nsockets opts then final_nsockets opts 8
  else if negb (final_count opts 0 =? 0) && (final_count opts 0 <? 8)
       then final_count opts 0
       else 8.

(** * Properties *)

(** ** Machine integers *)

Lemma to_int_small x : - 2 ^ 31 <= x < 2 ^ 31 -> CInt.to_int x = x.
Proof.
  intros H. unfold CInt.to_int.
  rewrite Z.mod_small by lia. lia.
Qed.

Lemma wrap_u64_small x : 0 <= x < 2 ^ 64 -> CInt.wrap_u64 x = x.
Proof. intros H. unfold CInt.wrap_u64. apply Z.mod_small. exact H. Qed.

(** ** How a run extends the trace *)

Lemma grows_refl s : grows s s [].
Proof. reflexivity. Qed.

Lemma grows_trans s s1 s2 a b :
  grows s s1 a -> grows s1 s2 b -> grows s s2 (a ++ b).
Proof.
  unfold grows. intros Ha Hb.
  rewrite Hb, Ha, rev_app_distr, app_assoc. reflexivity.
Qed.

Lemma grows_record s e ev : grows s (record e ev s) [ev].
Proof. reflexivity. Qed.

Lemma grows_emit s ev : grows s (emit ev s) [ev].
Proof. reflexivity. Qed.

Lemma grows_events_since s s' new : grows s s' new -> events_since s s' = new.
Proof.
  unfold grows, events_since. intros ->.
  rewrite length_app, Nat.add_sub.
  rewrite firstn_app, firstn_all, Nat.sub_diag. simpl.
  rewrite app_nil_r. apply rev_involutive.
Qed.

Lemma sends_of_app a b : sends_of (a ++ b) = sends_of a ++ sends_of b.
Proof.
  induction a as [|ev a IH]; simpl; [reflexivity|].
  destruct ev; simpl; rewrite ?IH; reflexivity.
Qed.

Lemma queries_of_app a b : queries_of (a ++ b) = queries_of a ++ queries_of b.
Proof.
  induction a as [|ev a IH]; simpl; [reflexivity|].
  destruct ev; simpl; rewrite ?IH; reflexivity.
Qed.

Lemma stdout_of_app a b : stdout_of (a ++ b) = stdout_of a ++ stdout_of b.
Proof.
  induction a as [|ev a IH]; simpl; [reflexivity|].
  destruct ev; simpl; rewrite ?IH; reflexivity.
Qed.

Lemma rds_sockets_of_app a b :
  rds_sockets_of (a ++ b) = rds_sockets_of a ++ rds_sockets_of b.
Proof.
  induction a as [|ev a IH]; simpl; [reflexivity|].
  destruct ev; simpl; rewrite ?IH; try reflexivity.
  destruct (_ && _); simpl; rewrite ?IH; reflexivity.
Qed.

Lemma socket_calls_of_app a b :
  socket_calls_of (a ++ b) = socket_calls_of a ++ socket_calls_of b.
Proof.
  induction a as [|ev a IH]; simpl; [reflexivity|].
  destruct ev; simpl; rewrite ?IH; reflexivity.
Qed.

(** ** The spin loop *)

Section Spin.

Variable env : Env.
Variable sock : Z.

Lemma sys_ioctl_outq_inv s r pend s1 :
  sys_ioctl_outq env sock s = (r, pend, s1) ->
  exists e, env_outq env (trace s) sock = (r, e, pend)
            /\ s1 = record e (EvOutq sock r pend) s.
Proof.
  unfold sys_ioctl_outq. intros H.
  destruct (env_outq env (trace s) sock) as [[r0 e0] p0].
  inversion H; subst. exists e0. split; reflexivity.
Qed.

(** The loop only queries [sock]; it touches no option variable. *)
Lemma spin_loop_events sp_cnt s :
  exists new,
    grows s (snd (spin_loop env sock sp_cnt s)) new
    /\ config (snd (spin_loop env sock sp_cnt s)) = config s
    /\ Forall (fun ev => exists r pend, ev = EvOutq sock r pend) new.
Proof.
  funelim (spin_loop env sock sp_cnt s).
  - apply sys_ioctl_outq_inv in Heq0. destruct Heq0 as (er & _ & ->).
    exists [EvOutq sock r pend]. simpl. repeat split.
    repeat constructor. eauto.
  - apply sys_ioctl_outq_inv in Heq0. destruct Heq0 as (er & _ & ->).
    destruct H as (new & Hg & Hc' & Hall).
    exists ([EvOutq sock r pend] ++ new). repeat split.
    + eapply grows_trans; [apply grows_record | exact Hg].
    + rewrite Hc'. reflexivity.
    + constructor; eauto.
  - apply sys_ioctl_outq_inv in Heq0. destruct Heq0 as (er & _ & ->).
    exists [EvOutq sock r pend]. simpl. repeat split.
    repeat constructor. eauto.
Qed.

(** With queries that succeed, the counter that comes back is above
    the one the loop was entered with and does not pass the ceiling;
    one query was made per count. *)
Lemma spin_loop_bounds sp_cnt s :
  query_never_fails env sock ->
  sp_cnt < SPIN_MAX ->
  sp_cnt < fst (spin_loop env sock sp_cnt s) <= SPIN_MAX
  /\ Z.of_nat (List.length
                 (queries_of
                    (events_since s (snd (spin_loop env sock sp_cnt s)))))
     = fst (spin_loop env sock sp_cnt s) - sp_cnt.
Proof.
  intros Hok.
  funelim (spin_loop env sock sp_cnt s); intros Hlt.
  - exfalso. apply sys_ioctl_outq_inv in Heq0.
    destruct Heq0 as (er & Hq & _).
    specialize (Hok (trace s)). rewrite Hq in Hok. simpl in Hok.
    subst r. discriminate.
  - assert (Hc' : sp_cnt + 1 < SPIN_MAX).
    { destruct (andb_prop _ _ Hc) as [_ Hx]. apply Z.ltb_lt, Hx. }
    specialize (H Hok Hc'). destruct H as [Hb Hn].
    split; [lia|].
    destruct (spin_loop_events (sp_cnt + 1) s1) as (new & Hg & _ & _).
    apply sys_ioctl_outq_inv in Heq0. destruct Heq0 as (er & _ & Hs1).
    rewrite (grows_events_since _ _ _ Hg) in Hn.
    assert (Hg' : grows s (snd (spin_loop env sock (sp_cnt + 1) s1))
                    ([EvOutq sock r pend] ++ new)).
    { eapply grows_trans; [|exact Hg]. subst s1. apply grows_record. }
    rewrite (grows_events_since _ _ _ Hg').
    simpl. lia.
  - apply sys_ioctl_outq_inv in Heq0. destruct Heq0 as (er & _ & Hs1).
    simpl. split; [lia|].
    rewrite (grows_events_since s s1 [EvOutq sock r pend])
      by (subst s1; apply grows_record).
    simpl. lia.
Qed.

(** A queue that never drains is given up on exactly at the ceiling. *)
Lemma spin_loop_ceiling sp_cnt s :
  query_never_fails env sock ->
  always_pending env sock ->
  sp_cnt < SPIN_MAX ->
  fst (spin_loop env sock sp_cnt s) = SPIN_MAX.
Proof.
  intros Hok Hpend.
  funelim (spin_loop env sock sp_cnt s); intros Hlt.
  - exfalso. apply sys_ioctl_outq_inv in Heq0.
    destruct Heq0 as (er & Hq & _).
    specialize (Hok (trace s)). rewrite Hq in Hok. simpl in Hok.
    subst r. discriminate.
  - assert (Hc' : sp_cnt + 1 < SPIN_MAX).
    { destruct (andb_prop _ _ Hc) as [_ Hx]. apply Z.ltb_lt, Hx. }
    apply H; assumption.
  - apply sys_ioctl_outq_inv in Heq0. destruct Heq0 as (er & Hq & _).
    specialize (Hpend (trace s)). rewrite Hq in Hpend. simpl in Hpend.
    simpl.
    match goal with
    | Hf : negb (pend =? 0) && _ = false |- _ =>
        destruct (proj1 (andb_false_iff _ _) Hf) as [Hz|Hz]
    end.
    + apply negb_false_iff, Z.eqb_eq in Hz. lia.
    + apply Z.ltb_ge in Hz. lia.
Qed.

End Spin.

(** ** The per-socket send loop *)

Section Sending.

Variable env : Env.

Lemma sys_sendto_inv sock dst msglen s :
  exists r e,
    env_sendto env (trace s) sock dst msglen = (r, e)
    /\ sys_sendto env sock dst msglen s
       = (Ret r, record e (EvSendto sock dst msglen r e) s).
Proof.
  unfold sys_sendto.
  destruct (env_sendto env (trace s) sock dst msglen) as [r e].
  exists r, e. split; reflexivity.
Qed.

(** The loop returns; its events are [sendto] calls on [sock]: a run of
    successful ones, then either nothing more (all [n] went through,
    the result is 0) or one failing call whose [errno] is the result. *)
Lemma send_loop_spec n sock dst msglen s :
  exists r s' new oks tail,
    send_loop env n sock dst msglen s = (Ret r, s')
    /\ grows s s' new
    /\ config s' = config s
    /\ socket_calls_of new = [] /\ stdout_of new = []
    /\ sends_of new = oks ++ tail
    /\ Forall (ok_on sock) oks
    /\ ((r = 0 /\ tail = [] /\ List.length oks = n)
        \/ (exists rv, tail = [(sock, rv, r)] /\ rv <> 0
                       /\ (List.length oks < n)%nat)).
Proof.
  revert s. induction n as [|n IH]; intros s.
  - exists 0, s, [], [], []. simpl. unfold ret.
    repeat split; auto using grows_refl.
  - destruct (sys_sendto_inv sock dst msglen s) as (r & e & _ & Hs).
    simpl. unfold bind. rewrite Hs.
    destruct (Z.eqb_spec r 0) as [->|Hr].
    + destruct (IH (record e (EvSendto sock dst msglen 0 e) s))
        as (r' & s' & new & oks & tail & Hrun & Hg & Hc & Hsc & Hso
            & Hsends & Hoks & Hcase).
      exists r', s', ([EvSendto sock dst msglen 0 e] ++ new),
        ((sock, 0, e) :: oks), tail.
      rewrite Hrun. repeat split.
      * eapply grows_trans; [apply grows_record | exact Hg].
      * rewrite Hc. reflexivity.
      * simpl. exact Hsc.
      * simpl. exact Hso.
      * simpl. rewrite Hsends. reflexivity.
      * constructor; [split; reflexivity | exact Hoks].
      * destruct Hcase as [(-> & -> & Hlen) | (rv & -> & Hrv & Hlen)].
        -- left. simpl. auto.
        -- right. exists rv. simpl. repeat split; auto. lia.
    + exists e, (record e (EvSendto sock dst msglen r e) s),
        [EvSendto sock dst msglen r e], [], [(sock, r, e)].
      unfold get, ret. simpl. repeat split; auto.
      right. exists r. repeat split; auto. simpl. lia.
Qed.

End Sending.

(** ** The scheduler *)

Lemma only_queries new sock :
  Forall (fun ev => exists r pend, ev = EvOutq sock r pend) new ->
  sends_of new = [] /\ socket_calls_of new = [] /\ stdout_of new = [].
Proof.
  induction 1 as [|ev new (r & pend & ->) _ IH]; simpl; auto.
Qed.

Section Scheduler.

Variable env : Env.

Lemma spin_if_enabled_spec sock idx s :
  exists s' new,
    spin_if_enabled env sock idx s = (Ret tt, s')
    /\ grows s s' new /\ config s' = config s
    /\ sends_of new = [] /\ socket_calls_of new = [].
Proof.
  unfold spin_if_enabled, bind, get.
  destruct (use_siocoutq s).
  - unfold spin_on_one_socket.
    destruct (spin_loop_events env sock 0 s) as (new & Hg & Hc & Hall).
    destruct (spin_loop env sock 0 s) as [sp s1]. simpl in *.
    destruct (only_queries _ _ Hall) as (Hs & Hk & _).
    exists (emit (EvStdout (OutSpun sp idx)) s1),
      (new ++ [EvStdout (OutSpun sp idx)]).
    unfold printf, modify. repeat split.
    + eapply grows_trans; [exact Hg | apply grows_emit].
    + rewrite <- Hc. reflexivity.
    + rewrite sends_of_app, Hs. reflexivity.
    + rewrite socket_calls_of_app, Hk. reflexivity.
  - exists s, []. unfold ret. repeat split.
Qed.

Lemma seq_loop_spec socks idx dst per_sock msglen s :
  exists r s' new,
    seq_loop env socks idx dst per_sock msglen s = (Ret r, s')
    /\ grows s s' new /\ config s' = config s
    /\ socket_calls_of new = []
    /\ seq_shape (Z.to_nat per_sock) socks (sends_of new) r.
Proof.
  revert idx s. induction socks as [|sk rest IH]; intros idx s.
  - exists 0, s, []. simpl. unfold ret.
    repeat split; auto using grows_refl. constructor.
  - simpl. unfold send_on_one_socket, bind.
    destruct (send_loop_spec env (Z.to_nat per_sock) (fd sk) dst msglen s)
      as (r & s1 & new1 & oks & tail & Hrun & Hg1 & Hc1 & Hk1 & _
          & Hsends & Hoks & Hcase).
    rewrite Hrun.
    assert (Hcont :
      r = 0 ->
      exists r' s' new,
        (let (o, s2) := spin_if_enabled env (fd sk) idx s1 in
         match o with
         | Ret _ => seq_loop env rest (idx + 1) dst per_sock msglen s2
         | Exit st => (Exit st, s2)
         end) = (Ret r', s')
        /\ grows s1 s' new /\ config s' = config s1
        /\ socket_calls_of new = []
        /\ seq_shape (Z.to_nat per_sock) rest (sends_of new) r').
    { intros _.
      destruct (spin_if_enabled_spec (fd sk) idx s1)
        as (s2 & new2 & Hsp & Hg2 & Hc2 & Hs2 & Hk2).
      rewrite Hsp.
      destruct (IH (idx + 1) s2) as (r' & s' & new3 & Hr3 & Hg3 & Hc3 & Hk3 & Hsh).
      exists r', s', (new2 ++ new3). repeat split.
      - exact Hr3.
      - eapply grows_trans; eassumption.
      - rewrite Hc3. exact Hc2.
      - rewrite socket_calls_of_app, Hk2, Hk3. reflexivity.
      - rewrite sends_of_app, Hs2. exact Hsh. }
    destruct (Z.eqb_spec r 0) as [Hr0|Hr0]; simpl.
    + destruct (Hcont Hr0) as (r' & s' & new & Hr & Hg & Hc & Hk & Hsh).
      exists r', s', (new1 ++ new). repeat split.
      * exact Hr.
      * eapply grows_trans; eassumption.
      * rewrite Hc. exact Hc1.
      * rewrite socket_calls_of_app, Hk1, Hk. reflexivity.
      * rewrite sends_of_app, Hsends.
        destruct Hcase as [(_ & -> & Hlen) | (rv & -> & Hrv & Hlen)].
        -- rewrite app_nil_r. apply shape_next; assumption.
        -- subst r. rewrite <- app_assoc. simpl.
           apply shape_fail_errno0; assumption.
    + exists r, s1, new1. unfold ret. repeat split; auto.
      rewrite Hsends.
      destruct Hcase as [(-> & _) | (rv & -> & Hrv & Hlen)];
        [congruence|].
      apply shape_fail; assumption.
Qed.

End Scheduler.

(** ** What the shape of a run implies *)

Section Shape.

Lemma ok_on_send_ok sock x : ok_on sock x -> send_ok x.
Proof. intros [_ H]. exact H. Qed.

Lemma Forall_ok_on_send_ok sock l : Forall (ok_on sock) l -> Forall send_ok l.
Proof. intros H. eapply Forall_impl; [|exact H]. apply ok_on_send_ok. Qed.

Lemma ok_on_map_fst sock l :
  Forall (ok_on sock) l -> map fst l = repeat (sock, 0) (List.length l).
Proof.
  induction 1 as [|[[a b] c] l [Ha Hb] _ IH]; simpl; [reflexivity|].
  simpl in Ha, Hb. subst. rewrite IH. reflexivity.
Qed.

(** A run of successful sends in front of a list is a prefix of any
    decomposition of the list at its first failing send. *)
Lemma ok_prefix_split (l1 l2 pre post : list (Z * Z * Z)) x :
  Forall send_ok l1 -> Forall send_ok pre -> ~ send_ok x ->
  l1 ++ l2 = pre ++ x :: post ->
  exists pre', pre = l1 ++ pre' /\ l2 = pre' ++ x :: post.
Proof.
  revert pre. induction l1 as [|a l1 IH]; intros pre H1 Hpre Hx Heq.
  - exists pre. split; [reflexivity | exact Heq].
  - inversion H1 as [|? ? Ha H1']; subst.
    destruct pre as [|b pre]; simpl in Heq; inversion Heq; subst.
    + contradiction.
    + inversion Hpre as [|? ? _ Hpre']; subst.
      destruct (IH pre H1' Hpre' Hx H2) as (pre' & -> & ->).
      exists pre'. split; reflexivity.
Qed.

Lemma first_failure_unique (l1 l2 pre post : list (Z * Z * Z)) y x :
  Forall send_ok l1 -> ~ send_ok y ->
  Forall send_ok pre -> ~ send_ok x ->
  l1 ++ y :: l2 = pre ++ x :: post ->
  l1 = pre /\ y = x /\ l2 = post.
Proof.
  intros H1 Hy Hpre Hx Heq.
  destruct (ok_prefix_split _ _ _ _ _ H1 Hpre Hx Heq) as (pre' & -> & Htl).
  destruct pre' as [|b pre']; simpl in Htl; inversion Htl; subst.
  - rewrite app_nil_r. auto.
  - exfalso. apply Forall_app in Hpre. destruct Hpre as [_ Hpre].
    inversion Hpre; subst. contradiction.
Qed.

Variable per_sock : nat.

(** First failure stops the run. *)
Lemma seq_shape_first_failure socks sends r :
  seq_shape per_sock socks sends r ->
  forall pre sock rv e post,
    sends = pre ++ (sock, rv, e) :: post ->
    Forall send_ok pre -> rv <> 0 -> e <> 0 ->
    exists k j sk,
      nth_error socks k = Some sk /\ sock = fd sk
      /\ (j < per_sock)%nat
      /\ map fst pre
         = flat_map (fun sk' => repeat (fd sk', 0) per_sock) (firstn k socks)
           ++ repeat (fd sk, 0) j
      /\ post = [] /\ r = e.
Proof.
  induction 1 as [| sk rest oks sends r Hoks Hlen Hsh IH
                  | sk rest oks rv' e' Hoks Hlen Hrv' He'
                  | sk rest oks rv' sends r Hoks Hlen Hrv' Hsh IH];
    intros pre sock rv e post Heq Hpre Hrv He.
  - destruct pre; discriminate.
  - assert (Hx : ~ send_ok (sock, rv, e)) by (unfold send_ok; simpl; auto).
    destruct (ok_prefix_split _ _ _ _ _ (Forall_ok_on_send_ok _ _ Hoks)
                Hpre Hx Heq) as (pre' & -> & Hrest).
    apply Forall_app in Hpre. destruct Hpre as [_ Hpre'].
    destruct (IH _ _ _ _ _ Hrest Hpre' Hrv He)
      as (k & j & sk' & Hnth & Hfd & Hj & Hmap & Hpost & Hr).
    exists (S k), j, sk'. simpl. repeat split; auto.
    rewrite map_app, Hmap, (ok_on_map_fst _ _ Hoks), Hlen, app_assoc.
    reflexivity.
  - assert (Hx : ~ send_ok (sock, rv, e)) by (unfold send_ok; simpl; auto).
    assert (Hy : ~ send_ok (fd sk, rv', e')) by (unfold send_ok; simpl; auto).
    destruct (first_failure_unique _ _ _ _ _ _
                (Forall_ok_on_send_ok _ _ Hoks) Hy Hpre Hx Heq)
      as (<- & Hxy & <-).
    inversion Hxy; subst.
    exists 0%nat, (List.length oks), sk. simpl. repeat split; auto.
    apply ok_on_map_fst. exact Hoks.
  - exfalso.
    assert (Hx : ~ send_ok (sock, rv, e)) by (unfold send_ok; simpl; auto).
    assert (Hy : ~ send_ok (fd sk, rv', 0)) by (unfold send_ok; simpl; auto).
    destruct (first_failure_unique _ _ _ _ _ _
                (Forall_ok_on_send_ok _ _ Hoks) Hy Hpre Hx Heq)
      as (_ & Hxy & _).
    inversion Hxy; subst. contradiction.
Qed.

(** When every send goes through, every socket had all its sends and
    the result is 0. *)
Lemma seq_shape_all_ok socks sends r :
  seq_shape per_sock socks sends r ->
  Forall send_ok sends ->
  r = 0
  /\ map fst sends
     = flat_map (fun sk => repeat (fd sk, 0) per_sock) socks.
Proof.
  induction 1 as [| sk rest oks sends r Hoks Hlen Hsh IH
                  | sk rest oks rv' e' Hoks Hlen Hrv' He'
                  | sk rest oks rv' sends r Hoks Hlen Hrv' Hsh IH];
    intros Hall.
  - auto.
  - apply Forall_app in Hall. destruct Hall as [_ Hall].
    destruct (IH Hall) as [-> Hmap]. split; [reflexivity|].
    simpl. rewrite map_app, Hmap, (ok_on_map_fst _ _ Hoks), Hlen.
    reflexivity.
  - exfalso. apply Forall_app in Hall. destruct Hall as [_ Hall].
    inversion Hall; subst. unfold send_ok in *. simpl in *. contradiction.
  - exfalso. apply Forall_app in Hall. destruct Hall as [_ Hall].
    inversion Hall; subst. unfold send_ok in *. simpl in *. contradiction.
Qed.

(** No socket is sent on more often than [per_sock] times. *)
Lemma seq_shape_length socks sends r :
  seq_shape per_sock socks sends r ->
  (List.length sends <= List.length socks * per_sock)%nat.
Proof.
  induction 1; simpl; rewrite ?length_app; simpl; try lia.
Qed.

End Shape.

(** With nothing to send per socket, nothing is sent. *)
Lemma seq_shape_zero socks sends r :
  seq_shape 0 socks sends r -> sends = [].
Proof.
  intros H. apply seq_shape_length in H.
  rewrite Nat.mul_0_r in H. destruct sends; [reflexivity | simpl in H; lia].
Qed.

(** One socket and one send per socket: exactly one [sendto], on it. *)
Lemma seq_shape_one sk sends r :
  seq_shape 1 [sk] sends r ->
  exists rv e, sends = [(fd sk, rv, e)].
Proof.
  intros H. inversion H as [| ? ? oks rest_sends ? Hoks Hlen Hsh
                            | ? ? oks rv e Hoks Hlen Hrv He
                            | ? ? oks rv rest_sends ? Hoks Hlen Hrv Hsh];
    subst.
  - inversion Hsh; subst. rewrite app_nil_r.
    destruct oks as [|[[a b] c] [|? ?]]; simpl in Hlen; try discriminate.
    inversion Hoks as [|? ? [Ha Hb] _]; subst. simpl in Ha, Hb. subst.
    eauto.
  - destruct oks; [|simpl in Hlen; lia]. simpl. eauto.
  - destruct oks; [|simpl in Hlen; lia]. inversion Hsh; subst. simpl. eauto.
Qed.

(** ** Socket creation and the timed run *)

(** The events between two traces, the older of which is [t]. *)
Ltac prefix_of l t :=
  match l with
  | t => constr:(@nil event)
  | ?x :: ?l' => let p := prefix_of l' t in constr:(x :: p)
  end.

Ltac solve_grows :=
  unfold grows; simpl;
  match goal with
  | |- ?l = rev ?n ++ ?t =>
      let p := prefix_of l t in
      unify n (rev p); simpl; reflexivity
  end.

(** What a call returns and how it extends the state. *)
Section Calls.

Variable env : Env.

Lemma sys_socket_inv d ty p s :
  exists r e, sys_socket env d ty p s
              = (Ret r, record e (EvSocket d ty p r) s).
Proof.
  unfold sys_socket. destruct (env_socket env (trace s) d ty p) as [r e].
  eauto.
Qed.

Lemma sys_connect_inv sock a alen s :
  exists r e, sys_connect env sock a alen s
              = (Ret r, record e (EvConnect sock a alen r) s).
Proof.
  unfold sys_connect.
  destruct (env_connect env (trace s) sock a alen) as [r e]. eauto.
Qed.

Lemma sys_getsockname_inv sock s :
  exists r e a, sys_getsockname env sock s
                = (Ret (r, a), record e (EvGetsockname sock r a) s).
Proof.
  unfold sys_getsockname.
  destruct (env_getsockname env (trace s) sock) as [[r e] a]. eauto.
Qed.

Lemma sys_bind_inv sock a alen s :
  exists r e, sys_bind env sock a alen s
              = (Ret r, record e (EvBind sock a alen r) s).
Proof.
  unfold sys_bind.
  destruct (env_bind env (trace s) sock a alen) as [r e]. eauto.
Qed.

Lemma sys_ioctl_settos_inv sock tos s :
  exists r e, sys_ioctl_settos env sock tos s
              = (Ret r, record e (EvSetTos sock tos r) s).
Proof.
  unfold sys_ioctl_settos.
  destruct (env_settos env (trace s) sock tos) as [r e]. eauto.
Qed.

Lemma sys_getaddrinfo_inv node numeric s :
  exists r a, sys_getaddrinfo env node numeric s
              = (Ret (r, a), emit (EvGetaddrinfo node numeric r) s).
Proof.
  unfold sys_getaddrinfo.
  destruct (env_getaddrinfo env (trace s) node numeric) as [r a]. eauto.
Qed.

End Calls.

(** Run a monadic program symbolically: answer the next call, then split
    on the next test. *)
Ltac run_call :=
  match goal with
  | |- context [sys_socket ?env ?d ?ty ?p ?s] =>
      let r := fresh "r" in let e := fresh "e" in let H := fresh "Hcall" in
      destruct (sys_socket_inv env d ty p s) as (r & e & H); rewrite H; clear H
  | |- context [sys_connect ?env ?k ?a ?l ?s] =>
      let r := fresh "r" in let e := fresh "e" in let H := fresh "Hcall" in
      destruct (sys_connect_inv env k a l s) as (r & e & H); rewrite H; clear H
  | |- context [sys_getsockname ?env ?k ?s] =>
      let r := fresh "r" in let e := fresh "e" in let a := fresh "a" in
      let H := fresh "Hcall" in
      destruct (sys_getsockname_inv env k s) as (r & e & a & H);
      rewrite H; clear H
  | |- context [sys_bind ?env ?k ?a ?l ?s] =>
      let r := fresh "r" in let e := fresh "e" in let H := fresh "Hcall" in
      destruct (sys_bind_inv env k a l s) as (r & e & H); rewrite H; clear H
  | |- context [sys_ioctl_settos ?env ?k ?v ?s] =>
      let r := fresh "r" in let e := fresh "e" in let H := fresh "Hcall" in
      destruct (sys_ioctl_settos_inv env k v s) as (r & e & H);
      rewrite H; clear H
  | |- context [sys_getaddrinfo ?env ?n ?b ?s] =>
      let r := fresh "r" in let a := fresh "a" in let H := fresh "Hcall" in
      destruct (sys_getaddrinfo_inv env n b s) as (r & a & H);
      rewrite H; clear H
  end.

Ltac run_test_step :=
  match goal with
  | |- context [if ?b then _ else _] => destruct b eqn:?
  end.

Ltac run_all := repeat (cbv beta iota; first [run_call | run_test_step]).

Section Creation.

Variable env : Env.

Lemma guess_source_spec s :
  exists new,
    grows s (snd (guess_source env s)) new
    /\ knobs (snd (guess_source env s)) = knobs s
    /\ sends_of new = [] /\ stdout_of new = []
    /\ rds_sockets_of new = [].
Proof.
  unfold guess_source, sys_close, die_errno, die, bind, get, modify, exit,
    ret.
  run_all.
  all: eexists; split; [solve_grows|].
  all: simpl; rewrite ?andb_false_r; auto.
Qed.

Lemma not_neg_leb r : (r <? 0) = false -> (0 <=? r) = true.
Proof. intros H. apply Z.ltb_ge in H. apply Z.leb_le. exact H. Qed.

(** [rds_socket] sends nothing, prints nothing, leaves the knobs alone
    and, when it returns, has created the one RDS socket it returns. *)
Lemma rds_socket_spec s :
  exists new,
    grows s (snd (rds_socket env s)) new
    /\ knobs (snd (rds_socket env s)) = knobs s
    /\ sends_of new = [] /\ stdout_of new = []
    /\ (forall sock, fst (rds_socket env s) = Ret sock ->
                     rds_sockets_of new = [sock]).
Proof.
  unfold rds_socket, guess_source, sys_close, die_errno, die, bind, get,
    modify, exit, ret.
  run_all.
  all: eexists; split; [solve_grows|].
  all: simpl; repeat split; auto; try discriminate.
  all: intros sock Hsock; inversion Hsock; subst.
  all: rewrite ?andb_false_r.
  all: match goal with
       | H : (?x <? 0) = false |- context [0 <=? ?x] =>
           rewrite (not_neg_leb _ H)
       end.
  all: reflexivity.
Qed.

Lemma create_sockets_spec n s :
  exists new,
    grows s (snd (create_sockets env n s)) new
    /\ knobs (snd (create_sockets env n s)) = knobs s
    /\ sends_of new = [] /\ stdout_of new = []
    /\ (forall socks, fst (create_sockets env n s) = Ret socks ->
                      rds_sockets_of new = map fd socks
                      /\ List.length socks = n).
Proof.
  revert s. induction n as [|n IH]; intros s.
  - exists []. simpl. unfold ret.
    split; [apply grows_refl|]. do 3 (split; [reflexivity|]).
    intros socks H. inversion H. split; reflexivity.
  - simpl. unfold bind.
    destruct (rds_socket_spec s) as (new1 & Hg1 & Hk1 & Hs1 & Ho1 & Hr1).
    destruct (rds_socket env s) as [[sock|st] s1]; simpl in *.
    + destruct (IH s1) as (new2 & Hg2 & Hk2 & Hs2 & Ho2 & Hr2).
      destruct (create_sockets env n s1) as [[rest|st] s2]; simpl in *.
      * exists (new1 ++ new2). unfold ret. simpl.
        split; [eapply grows_trans; eassumption|].
        split; [congruence|].
        split; [rewrite sends_of_app, Hs1, Hs2; reflexivity|].
        split; [rewrite stdout_of_app, Ho1, Ho2; reflexivity|].
        intros socks H. inversion H; subst. simpl.
        rewrite rds_sockets_of_app, (Hr1 sock eq_refl).
        destruct (Hr2 rest eq_refl) as [-> ->]. split; reflexivity.
      * exists (new1 ++ new2). simpl.
        split; [eapply grows_trans; eassumption|].
        split; [congruence|].
        split; [rewrite sends_of_app, Hs1, Hs2; reflexivity|].
        split; [rewrite stdout_of_app, Ho1, Ho2; reflexivity|].
        discriminate.
    + exists new1. do 4 (split; [assumption|]). discriminate.
Qed.

End Creation.

Lemma no_socket_calls_no_rds new :
  socket_calls_of new = [] -> rds_sockets_of new = [].
Proof.
  induction new as [|ev new IH]; simpl; [reflexivity|].
  destruct ev; simpl; auto; discriminate.
Qed.

Lemma config_knobs s s' : config s' = config s -> knobs s' = knobs s.
Proof. unfold config, knobs. intros H. inversion H. reflexivity. Qed.

Section Run.

Variable env : Env.

(** [run_test], when it returns, returns 0; it has created [nsockets]
    RDS sockets, has sent on them as the scheduler does, and its last
    act was to print the summary line.  When it exits instead, nothing
    was sent. *)
Lemma run_test_spec s :
  exists new,
    grows s (snd (run_test env s)) new
    /\ knobs (snd (run_test env s)) = knobs s
    /\ (forall r, fst (run_test env s) = Ret r ->
          r = 0
          /\ exists socks status tstart tend,
              List.length socks = Z.to_nat (nsockets s)
              /\ rds_sockets_of new = map fd socks
              /\ seq_shape (Z.to_nat (CInt.to_int (opt_count s)))
                   (firstn (Z.to_nat (CInt.to_int (nsockets s))) socks)
                   (sends_of new) status
              /\ hd_error (trace (snd (run_test env s)))
                 = Some (EvStdout
                           (OutSummary
                              (CInt.to_int (nsockets s))
                              (tdiff_of tend tstart)
                              (CInt.to_int
                                 (CInt.wrap_u64
                                    (opt_count s * nsockets s))))))
    /\ (forall st, fst (run_test env s) = Exit st -> sends_of new = []).
Proof.
  unfold run_test, bind, get.
  destruct (create_sockets_spec env (Z.to_nat (nsockets s)) s)
    as (new1 & Hg1 & Hk1 & Hs1 & Ho1 & Hr1).
  destruct (create_sockets env (Z.to_nat (nsockets s)) s)
    as [[socks|st] s1]; simpl in *.
  - destruct (Hr1 socks eq_refl) as [Hrds Hlen].
    assert (Hn : nsockets s1 = nsockets s) by (inversion Hk1; reflexivity).
    assert (Hcnt : opt_count s1 = opt_count s)
      by (inversion Hk1; reflexivity).
    unfold send_on_n_sockets_seq.
    set (tstart := env_gettimeofday env (trace s1)).
    set (s2 := emit (EvGettimeofday tstart) s1).
    destruct (seq_loop_spec env
                (firstn (Z.to_nat (CInt.to_int (nsockets s1))) socks) 0
                (opt_dstaddr s1) (CInt.to_int (opt_count s1))
                (if sin_family (opt_dstaddr s1) =? AF_INET
                 then sizeof_sockaddr_in else sizeof_sockaddr_in6) s2)
      as (status & s3 & new3 & Hrun & Hg3 & Hc3 & Hk3 & Hsh).
    rewrite Hrun. unfold ret.
    set (tend := env_gettimeofday env (trace s3)).
    set (summary := OutSummary _ _ _).
    exists (new1 ++ [EvGettimeofday tstart] ++ new3
                 ++ [EvGettimeofday tend; EvStdout summary]).
    split.
    { eapply grows_trans; [exact Hg1|].
      eapply grows_trans; [apply grows_emit|].
      eapply grows_trans; [exact Hg3|].
      simpl. reflexivity. }
    split.
    { simpl. apply config_knobs in Hc3.
      unfold knobs in *. simpl in *. congruence. }
    split; [|discriminate].
    intros r Hr. inversion Hr; subst r. split; [reflexivity|].
    exists socks, status, tstart, tend.
    split; [exact Hlen|].
    split.
    { rewrite !rds_sockets_of_app, Hrds, (no_socket_calls_no_rds _ Hk3).
      simpl. rewrite app_nil_r. reflexivity. }
    split.
    { rewrite !sends_of_app, Hs1. simpl. rewrite app_nil_r.
      rewrite <- Hn, <- Hcnt. exact Hsh. }
    simpl. subst summary. rewrite Hn, Hcnt. reflexivity.
  - exists new1. split; [exact Hg1|]. split; [exact Hk1|].
    split; [discriminate|]. intros _ _. exact Hs1.
Qed.

End Run.

(** ** Option handling *)

Section Options.

Variable env : Env.

Lemma parse_addr_spec ptr store s :
  (forall a s0, knobs (store a s0) = knobs s0
                /\ trace (store a s0) = trace s0) ->
  exists new,
    grows s (snd (parse_addr env ptr store s)) new
    /\ knobs (snd (parse_addr env ptr store s)) = knobs s
    /\ sends_of new = [] /\ socket_calls_of new = [] /\ stdout_of new = [].
Proof.
  intros Hstore.
  unfold parse_addr, die, bind, get, modify, exit, ret.
  run_all.
  all: simpl.
  all: eexists; split;
    [ unfold grows; try rewrite (proj2 (Hstore _ _)); solve_grows
    | try rewrite (proj1 (Hstore _ _)); simpl; auto ].
Qed.

Lemma set_opt_srcaddr_frame a s0 :
  knobs (set_opt_srcaddr a s0) = knobs s0
  /\ trace (set_opt_srcaddr a s0) = trace s0.
Proof. split; reflexivity. Qed.

Lemma set_opt_dstaddr_frame a s0 :
  knobs (set_opt_dstaddr a s0) = knobs s0
  /\ trace (set_opt_dstaddr a s0) = trace s0.
Proof. split; reflexivity. Qed.

(** The option loop makes no socket call, sends nothing and prints
    nothing on standard output; when it returns, [opt_count] holds the
    last [-c] value, the flags tell whether [-I] and [-n] were seen, and
    [nsockets] is untouched unless [-n] was given. *)
Lemma getopt_loop_spec opts : forall ss0 nss0 s,
  exists new,
    grows s (snd (getopt_loop env opts ss0 nss0 s)) new
    /\ sends_of new = [] /\ socket_calls_of new = [] /\ stdout_of new = []
    /\ (forall ss nss,
          fst (getopt_loop env opts ss0 nss0 s) = Ret (ss, nss) ->
          opt_count (snd (getopt_loop env opts ss0 nss0 s))
          = final_count opts (opt_count s)
          /\ nss = nss0 || sets_nsockets opts
          /\ ss = ss0 || sets_source opts
          /\ (sets_nsockets opts = false ->
              nsockets (snd (getopt_loop env opts ss0 nss0 s))
              = nsockets s)).
Proof.
  induction opts as [|o rest IH]; intros ss0 nss0 s.
  - exists []. simpl. unfold ret. simpl.
    split; [apply grows_refl|]. do 3 (split; [reflexivity|]).
    intros ss nss H. inversion H; subst.
    rewrite !orb_false_r. auto.
  - destruct o as [a|a|a|a| |]; simpl.
    + (* -c *)
      destruct (parse_long a) as [v|].
      * unfold bind, modify.
        destruct (IH ss0 nss0 (set_opt_count v s))
          as (new & Hg & Hs & Hk & Ho & Hret).
        exists new. split; [exact Hg|]. do 3 (split; [assumption|]).
        exact Hret.
      * exists [EvStderr "Bad packet count <%s>" None].
        unfold die, bind, modify, exit. simpl.
        split; [reflexivity|]. do 3 (split; [reflexivity|]). discriminate.
    + (* -n *)
      destruct (parse_long a) as [v|].
      * unfold bind, modify.
        destruct ((v <? nsockets_min) || (v >? nsockets_max)).
        -- exists [EvStderr "Invalid number of sockets <%s>" None].
           unfold die, bind, modify, exit. simpl.
           split; [reflexivity|]. do 3 (split; [reflexivity|]).
           discriminate.
        -- destruct (IH ss0 true (set_nsockets v s))
             as (new & Hg & Hs & Hk & Ho & Hret).
           exists new. split; [exact Hg|]. do 3 (split; [assumption|]).
           intros ss nss H. destruct (Hret ss nss H) as (Hc & Hn & Hss & _).
           rewrite orb_true_r. simpl in Hn.
           repeat split; auto. discriminate.
      * exists [EvStderr "Invalid number of sockets <%s>" None].
        unfold die, bind, modify, exit. simpl.
        split; [reflexivity|]. do 3 (split; [reflexivity|]). discriminate.
    + (* -I *)
      unfold bind.
      destruct (parse_addr_spec a set_opt_srcaddr s set_opt_srcaddr_frame)
        as (new1 & Hg1 & Hk1 & Hs1 & Hc1 & Ho1).
      destruct (parse_addr env a set_opt_srcaddr s) as [[r|st] s1];
        simpl in *.
      * destruct (r =? 0).
        -- exists (new1 ++ [EvStderr "Unknown source address <%s>" None]).
           unfold die, bind, modify, exit. simpl.
           split; [eapply grows_trans; [exact Hg1 | apply grows_emit]|].
           rewrite sends_of_app, socket_calls_of_app, stdout_of_app,
             Hs1, Hc1, Ho1.
           do 3 (split; [reflexivity|]). discriminate.
        -- destruct (IH true nss0 s1) as (new & Hg & Hs & Hk & Ho & Hret).
           exists (new1 ++ new).
           split; [eapply grows_trans; eassumption|].
           rewrite sends_of_app, socket_calls_of_app, stdout_of_app,
             Hs1, Hc1, Ho1, Hs, Hk, Ho.
           do 3 (split; [reflexivity|]).
           intros ss nss H. destruct (Hret ss nss H) as (Hc & Hn & Hss & Hns).
           inversion Hk1.
           rewrite orb_true_r. simpl in Hss.
           repeat split; auto; try congruence.
      * exists new1. split; [exact Hg1|]. do 3 (split; [assumption|]).
        discriminate.
    + (* -Q *)
      destruct (parse_long a) as [v|].
      * unfold bind, modify.
        destruct (IH ss0 nss0 (set_opt_tos v s))
          as (new & Hg & Hs & Hk & Ho & Hret).
        exists new. split; [exact Hg|]. do 3 (split; [assumption|]).
        exact Hret.
      * exists [EvStderr "Bad tos <%s>" None].
        unfold die, bind, modify, exit. simpl.
        split; [reflexivity|]. do 3 (split; [reflexivity|]). discriminate.
    + (* -s *)
      unfold bind, modify.
      destruct (IH ss0 nss0 (set_use_siocoutq true s))
        as (new & Hg & Hs & Hk & Ho & Hret).
      exists new. split; [exact Hg|]. do 3 (split; [assumption|]).
      exact Hret.
    + exists [EvStderr "Unknown option" None].
      unfold usage, bind, modify, exit. simpl.
      split; [reflexivity|]. do 3 (split; [reflexivity|]). discriminate.
Qed.

End Options.

(** ** [main] up to the run *)

Section Main.

Variable env : Env.

Lemma clamp_nsockets_eq nss s :
  clamp_nsockets nss s = (Ret tt, clamped nss s).
Proof.
  unfold clamp_nsockets, clamped, bind, get, modify, ret.
  destruct (negb nss && negb (opt_count s =? 0)
            && (opt_count s <? nsockets s)); reflexivity.
Qed.

Lemma grows_clamped s s2 new nss :
  grows s s2 new -> grows s (clamped nss s2) new.
Proof.
  unfold grows, clamped. destruct (_ && _); simpl; auto.
Qed.

(** The only way out of the option phase is [exit(1)]. *)
Lemma parse_addr_exit_status ptr store s st s' :
  parse_addr env ptr store s = (Exit st, s') -> st = 1.
Proof.
  unfold parse_addr, die, bind, get, modify, exit, ret.
  run_all; intros H; inversion H; reflexivity.
Qed.

Lemma getopt_loop_exit_status opts : forall ss0 nss0 s st s',
  getopt_loop env opts ss0 nss0 s = (Exit st, s') -> st = 1.
Proof.
  induction opts as [|o rest IH]; intros ss0 nss0 s st s'; simpl.
  - unfold ret. discriminate.
  - destruct o as [a|a|a|a| |]; unfold die, usage, bind, modify, exit.
    + destruct (parse_long a); [apply IH|].
      intros H; inversion H; reflexivity.
    + destruct (parse_long a); [|intros H; inversion H; reflexivity].
      destruct (_ || _); [intros H; inversion H; reflexivity | apply IH].
    + destruct (parse_addr env a set_opt_srcaddr s) as [[r|st0] s1] eqn:Hp.
      * destruct (r =? 0); [intros H; inversion H; reflexivity | apply IH].
      * intros H; inversion H; subst.
        exact (parse_addr_exit_status _ _ _ _ _ Hp).
    + destruct (parse_long a); [apply IH|].
      intros H; inversion H; reflexivity.
    + apply IH.
    + intros H; inversion H; reflexivity.
Qed.

(** Either [main] exits before the run, having made no socket call and
    sent nothing, or it accepted the options, resolved the destination,
    passed the family check and continues as [run_test] from the
    clamped state. *)
Lemma main_cases opts operands :
  (exists st s',
      main env opts operands init_state = (Exit st, s')
      /\ st = 1
      /\ sends_of (events_since init_state s') = []
      /\ socket_calls_of (events_since init_state s') = [])
  \/ (exists ss nss s1 dst rr s2,
         operands = [dst]
         /\ getopt_loop env opts false false init_state
            = (Ret (ss, nss), s1)
         /\ parse_addr env dst set_opt_dstaddr s1 = (Ret rr, s2)
         /\ rr <> 0
         /\ ss && negb (sin_family (opt_dstaddr s2)
                        =? sin_family (opt_srcaddr s2)) = false
         /\ main env opts operands init_state
            = run_test env (clamped nss s2)
         /\ sends_of (events_since init_state (clamped nss s2)) = []
         /\ socket_calls_of (events_since init_state (clamped nss s2)) = []
         /\ opt_count s2 = final_count opts 0
         /\ nss = sets_nsockets opts
         /\ ss = sets_source opts
         /\ (nss = false -> nsockets s2 = 8)).
Proof.
  unfold main, bind.
  destruct (getopt_loop_spec env opts false false init_state)
    as (new1 & Hg1 & Hs1 & Hk1 & _ & Hret1).
  destruct (getopt_loop env opts false false init_state)
    as [[[ss nss]|st] s1] eqn:Hloop; cbn [fst snd] in *.
  - destruct (Hret1 ss nss eq_refl) as (Hcnt & Hnss & Hss & Hns).
    simpl in Hcnt, Hnss, Hss, Hns.
    destruct operands as [|dst [|extra more]].
    + left. exists 1, (emit (EvStderr "Missing destination address" None) s1).
      unfold usage, bind, modify, exit.
      split; [reflexivity|]. split; [reflexivity|].
      rewrite (grows_events_since _ _ (new1 ++ [EvStderr _ _])
                 (grows_trans _ _ _ _ _ Hg1 (grows_emit _ _))).
      rewrite sends_of_app, socket_calls_of_app, Hs1, Hk1. auto.
    + destruct (parse_addr_spec env dst set_opt_dstaddr s1
                  set_opt_dstaddr_frame)
        as (new2 & Hg2 & Hkn2 & Hs2 & Hk2 & _).
      destruct (parse_addr env dst set_opt_dstaddr s1)
        as [[rr|st] s2] eqn:Hparse; cbn [fst snd] in *.
      * destruct (Z.eqb_spec rr 0) as [Hrr|Hrr].
        -- left. exists 1,
             (emit (EvStderr "Cannot parse destination address <%s>" None) s2).
           unfold die, bind, modify, exit.
           split; [reflexivity|]. split; [reflexivity|].
           rewrite (grows_events_since _ _ (new1 ++ new2 ++ [EvStderr _ _])
                      (grows_trans _ _ _ _ _ Hg1
                         (grows_trans _ _ _ _ _ Hg2 (grows_emit _ _)))).
           rewrite !sends_of_app, !socket_calls_of_app, Hs1, Hk1, Hs2, Hk2.
           auto.
        -- unfold check_family, bind, get.
           destruct (ss && negb (sin_family (opt_dstaddr s2)
                                 =? sin_family (opt_srcaddr s2))) eqn:Hfam.
           ++ left. exists 1,
                (emit (EvStderr
                   "Source and destination address family are not the same"
                   None)
                   s2).
              unfold die, bind, modify, exit.
              split; [reflexivity|]. split; [reflexivity|].
              rewrite (grows_events_since _ _ (new1 ++ new2 ++ [EvStderr _ _])
                         (grows_trans _ _ _ _ _ Hg1
                            (grows_trans _ _ _ _ _ Hg2 (grows_emit _ _)))).
              rewrite !sends_of_app, !socket_calls_of_app,
                Hs1, Hk1, Hs2, Hk2.
              auto.
           ++ right. exists ss, nss, s1, dst, rr, s2.
              unfold ret. rewrite clamp_nsockets_eq.
              assert (Hev : events_since init_state (clamped nss s2)
                            = new1 ++ new2).
              { apply grows_events_since, grows_clamped.
                eapply grows_trans; eassumption. }
              rewrite Hev, sends_of_app, socket_calls_of_app,
                Hs1, Hk1, Hs2, Hk2.
              inversion Hkn2.
              repeat split; auto; try congruence.
              transitivity (nsockets s1);
                [congruence | apply Hns; congruence].
      * left. exists st, s2. split; [reflexivity|].
        (* [parse_addr] only ever exits through [die] *)
        split; [exact (parse_addr_exit_status _ _ _ _ _ Hparse)|].
        rewrite (grows_events_since _ _ (new1 ++ new2)
                   (grows_trans _ _ _ _ _ Hg1 Hg2)).
        rewrite sends_of_app, socket_calls_of_app, Hs1, Hk1, Hs2, Hk2. auto.
    + left. exists 1, (emit (EvStderr "Missing destination address" None) s1).
      unfold usage, bind, modify, exit.
      split; [reflexivity|]. split; [reflexivity|].
      rewrite (grows_events_since _ _ (new1 ++ [EvStderr _ _])
                 (grows_trans _ _ _ _ _ Hg1 (grows_emit _ _))).
      rewrite sends_of_app, socket_calls_of_app, Hs1, Hk1. auto.
  - left. exists st, s1. split; [reflexivity|].
    split; [exact (getopt_loop_exit_status _ _ _ _ _ _ Hloop)|].
    rewrite (grows_events_since _ _ _ Hg1). auto.
Qed.

End Main.

Lemma grows_from_init s : grows init_state s (events_since init_state s).
Proof.
  unfold grows, events_since. simpl.
  rewrite Nat.sub_0_r, firstn_all, rev_involutive, app_nil_r. reflexivity.
Qed.

Lemma map_mkSocket_fd socks : map mkSocket (map fd socks) = socks.
Proof.
  induction socks as [|[k] socks IH]; simpl; [reflexivity|].
  rewrite IH. reflexivity.
Qed.

(** A run of [main] with a packet count [c] below the default group size
    and no [-n]: the group is clamped to [c] sockets, the scheduler runs
    over them with [c] sends each, and the summary reports [c * c]. *)
Lemma main_clamped_run env opts dst c r s' :
  sets_nsockets opts = false ->
  final_count opts 0 = c ->
  0 < c < 8 ->
  main env opts [dst] init_state = (Ret r, s') ->
  exists socks status tdiff,
    List.length socks = Z.to_nat c
    /\ nsockets s' = c
    /\ rds_sockets_of (events_since init_state s') = map fd socks
    /\ seq_shape (Z.to_nat c) socks
         (sends_of (events_since init_state s')) status
    /\ hd_error (trace s') = Some (EvStdout (OutSummary c tdiff (c * c))).
Proof.
  intros Hn Hc Hrange Hmain.
  destruct (main_cases env opts [dst])
    as [(st & s'' & Hm & _)
       | (ss & nss & s1 & dst' & rr & s2 & _ & _ & _ & _ & _ & Hrun & Hs
          & Hk & Hcnt & Hnss & _ & Hns)];
    [congruence|].
  rewrite Hn in Hnss. subst nss. specialize (Hns eq_refl).
  rewrite Hc in Hcnt.
  assert (Hcl : clamped false s2 = set_nsockets c s2).
  { unfold clamped. rewrite Hcnt, Hns. simpl.
    destruct (Z.eqb_spec c 0); [lia|].
    destruct (Z.ltb_spec c 8); [reflexivity | lia]. }
  rewrite Hcl in *. rewrite Hrun in Hmain.
  destruct (run_test_spec env (set_nsockets c s2))
    as (new & Hg & Hkn & Hret & _).
  rewrite Hmain in *. simpl in *.
  destruct (Hret r eq_refl)
    as (_ & socks & status & tstart & tend & Hlen & Hrds & Hsh & Hsum).
  rewrite Hcnt in *.
  rewrite (to_int_small c) in * by lia.
  assert (Hev : events_since init_state s'
                = events_since init_state (set_nsockets c s2) ++ new).
  { apply grows_events_since.
    eapply grows_trans; [apply grows_from_init | exact Hg]. }
  exists socks, status, (tdiff_of tend tstart).
  split; [exact Hlen|].
  split; [inversion Hkn; reflexivity|].
  split.
  { rewrite Hev, rds_sockets_of_app, (no_socket_calls_no_rds _ Hk), Hrds.
    reflexivity. }
  split.
  { rewrite Hev, sends_of_app, Hs. simpl.
    rewrite <- Hlen, firstn_all in Hsh. rewrite <- Hlen. exact Hsh. }
  rewrite Hsum.
  rewrite wrap_u64_small by nia.
  rewrite to_int_small by nia.
  reflexivity.
Qed.

(** ** The claims *)

Lemma spin_loop_first_empty env sock sp_cnt s :
  query_never_fails env sock ->
  snd (env_outq env (trace s) sock) = 0 ->
  fst (spin_loop env sock sp_cnt s) = sp_cnt + 1.
Proof.
  intros Hok.
  funelim (spin_loop env sock sp_cnt s); intros Hempty.
  - exfalso. apply sys_ioctl_outq_inv in Heq0.
    destruct Heq0 as (er & Hq & _).
    specialize (Hok (trace s)). rewrite Hq in Hok. simpl in Hok.
    subst r. discriminate.
  - exfalso. apply sys_ioctl_outq_inv in Heq0.
    destruct Heq0 as (er & Hq & _).
    rewrite Hq in Hempty. simpl in Hempty. subst pend.
    destruct (andb_prop _ _ Hc) as [Hx _]. discriminate.
  - reflexivity.
Qed.

(** C1. For a socket whose outbound-queue query never fails, the
    drain-spin loop returns, with a spin count that is at least 0 and
    strictly below 100001; if every query reports a positive number of
    pending bytes, the count is exactly the ceiling 100000. *)
Theorem drain_spin_terminates_within_ceiling env sock s :
  query_never_fails env sock ->
  exists r s',
    spin_on_one_socket env sock s = (Ret r, s')
    /\ 0 <= r < 100001
    /\ (always_pending env sock -> r = 100000).
Proof.
  intros Hok. unfold spin_on_one_socket.
  assert (Hlt : 0 < SPIN_MAX) by (unfold SPIN_MAX; lia).
  destruct (spin_loop_bounds env sock 0 s Hok Hlt) as [Hb _].
  pose proof (fun Hp => spin_loop_ceiling env sock 0 s Hok Hp Hlt) as Hceil.
  destruct (spin_loop env sock 0 s) as [r s']. simpl in *.
  exists r, s'. unfold SPIN_MAX in *.
  split; [reflexivity|]. split; [lia | exact Hceil].
Qed.

Lemma drain_spin_terminates_within_ceiling_witness :
  query_never_fails Sim.env_never_drains 3
  /\ exists r s',
       spin_on_one_socket Sim.env_never_drains 3 init_state = (Ret r, s')
       /\ 0 <= r < 100001
       /\ (always_pending Sim.env_never_drains 3 -> r = 100000).
Proof.
  split.
  - intros h. reflexivity.
  - apply (drain_spin_terminates_within_ceiling Sim.env_never_drains 3
             init_state).
    intros h. reflexivity.
Defined.

(** C10. Whenever every outbound-queue query succeeds, the drain-spin
    step returns a spin count of at least 1, one per query made; a queue
    that is already empty at the first query gives exactly 1. *)
Theorem drain_spin_counts_first_query env sock s :
  query_never_fails env sock ->
  exists r s',
    spin_on_one_socket env sock s = (Ret r, s')
    /\ 1 <= r
    /\ Z.of_nat (List.length (queries_of (events_since s s'))) = r
    /\ (snd (env_outq env (trace s) sock) = 0 -> r = 1).
Proof.
  intros Hok. unfold spin_on_one_socket.
  assert (Hlt : 0 < SPIN_MAX) by (unfold SPIN_MAX; lia).
  destruct (spin_loop_bounds env sock 0 s Hok Hlt) as [Hb Hq].
  pose proof (spin_loop_first_empty env sock 0 s Hok) as Hempty.
  destruct (spin_loop env sock 0 s) as [r s']. simpl in *.
  exists r, s'.
  split; [reflexivity|]. split; [lia|]. split; [lia | exact Hempty].
Qed.

Lemma drain_spin_counts_first_query_witness :
  query_never_fails Sim.env_ok 3
  /\ exists r s',
       spin_on_one_socket Sim.env_ok 3 init_state = (Ret r, s')
       /\ 1 <= r
       /\ Z.of_nat (List.length (queries_of (events_since init_state s')))
          = r
       /\ (snd (env_outq Sim.env_ok (trace init_state) 3) = 0 -> r = 1).
Proof.
  split.
  - intros h. reflexivity.
  - apply (drain_spin_counts_first_query Sim.env_ok 3 init_state).
    intros h. reflexivity.
Defined.

(** C2. Whenever a send of a scheduler run fails for the first time (all
    sends before it went through, it left a non-zero [errno] [e]), it
    was made on some socket of index [k] of the group; every socket
    before [k] had all its [per_sock] sends, socket [k] had [j] of its own
    before the failing one, no send at all follows it, and [e] is the
    scheduler's result. *)
Theorem first_send_failure_stops_scheduler
        env nsocks dst n_socks per_sock msglen s r s' pre sock rv e post :
  send_on_n_sockets_seq env nsocks dst n_socks per_sock msglen s
  = (Ret r, s') ->
  sends_of (events_since s s') = pre ++ (sock, rv, e) :: post ->
  Forall send_ok pre ->
  rv <> 0 ->
  e <> 0 ->
  exists k j sk,
    nth_error (firstn (Z.to_nat n_socks) nsocks) k = Some sk
    /\ sock = fd sk
    /\ (j < Z.to_nat per_sock)%nat
    /\ map fst pre
       = flat_map (full_sends per_sock)
           (firstn k (firstn (Z.to_nat n_socks) nsocks))
         ++ repeat (fd sk, 0) j
    /\ post = []
    /\ r = e.
Proof.
  intros Hrun Hsends Hpre Hrv He.
  unfold send_on_n_sockets_seq in Hrun.
  destruct (seq_loop_spec env (firstn (Z.to_nat n_socks) nsocks) 0 dst
              per_sock msglen s)
    as (r0 & s0 & new & Hrun0 & Hg & _ & _ & Hsh).
  rewrite Hrun in Hrun0. inversion Hrun0; subst r0 s0.
  rewrite (grows_events_since _ _ _ Hg) in Hsends.
  exact (seq_shape_first_failure _ _ _ _ Hsh _ _ _ _ _ Hsends Hpre Hrv He).
Qed.

Lemma first_send_failure_stops_scheduler_witness :
  sends_of (events_since init_state (snd sched_fail_run))
  = [(3, 0, 0); (3, 0, 0); (4, 0, 0); (4, 0, 0)]
      ++ (5, -1, Sim.ECONNREFUSED) :: []
  /\ exists k j sk,
    nth_error (firstn (Z.to_nat 8) probe_group) k = Some sk
    /\ 5 = fd sk
    /\ (j < Z.to_nat 2)%nat
    /\ map fst [(3, 0, 0); (3, 0, 0); (4, 0, 0); (4, 0, 0)]
       = flat_map (full_sends 2)
           (firstn k (firstn (Z.to_nat 8) probe_group))
         ++ repeat (fd sk, 0) j
    /\ @nil (Z * Z * Z) = []
    /\ Sim.ECONNREFUSED = Sim.ECONNREFUSED.
Proof.
  split; [vm_compute; reflexivity|].
  apply (first_send_failure_stops_scheduler
           (Sim.env_send_fails_after 4 Sim.ECONNREFUSED)
           probe_group loopback_dst 8 2 sizeof_sockaddr_in init_state
           Sim.ECONNREFUSED (snd sched_fail_run)
           [(3, 0, 0); (3, 0, 0); (4, 0, 0); (4, 0, 0)] 5 (-1)
           Sim.ECONNREFUSED []).
  - vm_compute. reflexivity.
  - vm_compute. reflexivity.
  - repeat constructor.
  - discriminate.
  - discriminate.
Defined.

(** C5 as stated fails: with every send going through the scheduler
    returns 0, not the 4 packets sent; with a failing send it returns the
    [errno], not the 4 packets sent before it. *)
Lemma scheduler_result_is_not_a_count :
  (fst sched_ok_run = Ret 0
   /\ packets_sent (events_since init_state (snd sched_ok_run)) = 4
   /\ fst sched_ok_run
      <> Ret (packets_sent (events_since init_state (snd sched_ok_run))))
  /\ (fst sched_fail_run = Ret Sim.ECONNREFUSED
      /\ packets_sent (events_since init_state (snd sched_fail_run)) = 4
      /\ fst sched_fail_run
         <> Ret (packets_sent
                   (events_since init_state (snd sched_fail_run)))).
Proof.
  repeat split; try (vm_compute; reflexivity); vm_compute; discriminate.
Qed.

(** C5, amended. The scheduler always returns, and what it returns is a
    status: 0 when every send went through, each socket of the group then
    having had all its [per_sock] sends; the [errno] of the first failing
    send when that is non-zero. *)
Theorem scheduler_returns_status
        env nsocks dst n_socks per_sock msglen s :
  exists r s',
    send_on_n_sockets_seq env nsocks dst n_socks per_sock msglen s
    = (Ret r, s')
    /\ (Forall send_ok (sends_of (events_since s s')) ->
        r = 0
        /\ map fst (sends_of (events_since s s'))
           = flat_map (full_sends per_sock)
               (firstn (Z.to_nat n_socks) nsocks))
    /\ (forall pre sock rv e post,
           sends_of (events_since s s') = pre ++ (sock, rv, e) :: post ->
           Forall send_ok pre -> rv <> 0 -> e <> 0 ->
           r = e).
Proof.
  unfold send_on_n_sockets_seq.
  destruct (seq_loop_spec env (firstn (Z.to_nat n_socks) nsocks) 0 dst
              per_sock msglen s)
    as (r & s' & new & Hrun & Hg & _ & _ & Hsh).
  exists r, s'. rewrite (grows_events_since _ _ _ Hg).
  split; [exact Hrun|]. split.
  - intros Hall. exact (seq_shape_all_ok _ _ _ _ Hsh Hall).
  - intros pre sock rv e post Hsends Hpre Hrv He.
    destruct (seq_shape_first_failure _ _ _ _ Hsh _ _ _ _ _
                Hsends Hpre Hrv He)
      as (k & j & sk & _ & _ & _ & _ & _ & Hr).
    exact Hr.
Qed.

(** C7 fails on the code: 1500 microseconds elapsed are 3/2 milliseconds,
    but the value converted to [float] and printed is the integer 1:
    the division by 1000 is done on [long] before the conversion. *)
Theorem tdiff_drops_fractional_msec :
  usec_sub (mkTimeval 0 1500) (mkTimeval 0 0) = 1500
  /\ tdiff_of (mkTimeval 0 1500) (mkTimeval 0 0) = 1
  /\ ~ QArith_base.Qeq
         (QArith_base.inject_Z
            (tdiff_of (mkTimeval 0 1500) (mkTimeval 0 0)))
         (elapsed_msec_exact (mkTimeval 0 1500) (mkTimeval 0 0)).
Proof.
  split; [reflexivity|]. split; [reflexivity|].
  vm_compute. discriminate.
Qed.

(** C3. For every packet count [c] with 0 < c < 8 given on the command
    line, and no [-n], a run that completes has a group of [c] sockets:
    [nsockets] is [c], [c] RDS sockets were created, the summary reports
    [c] sockets and [c * c] packets, and when every send goes through each
    socket has had [c] sends. *)
Theorem packet_count_clamps_group_size env opts dst c r s' :
  sets_nsockets opts = false ->
  final_count opts 0 = c ->
  0 < c < 8 ->
  main env opts [dst] init_state = (Ret r, s') ->
  nsockets s' = c
  /\ List.length (rds_sockets_of (events_since init_state s')) = Z.to_nat c
  /\ (exists tdiff,
         hd_error (trace s') = Some (EvStdout (OutSummary c tdiff (c * c))))
  /\ (Forall send_ok (sends_of (events_since init_state s')) ->
      map fst (sends_of (events_since init_state s'))
      = flat_map (full_sends c)
          (map mkSocket (rds_sockets_of (events_since init_state s')))).
Proof.
  intros Hn Hc Hrange Hmain.
  destruct (main_clamped_run env opts dst c r s' Hn Hc Hrange Hmain)
    as (socks & status & tdiff & Hlen & Hns & Hrds & Hsh & Hsum).
  split; [exact Hns|].
  split; [rewrite Hrds, length_map; exact Hlen|].
  split; [exists tdiff; exact Hsum|].
  intros Hall. rewrite Hrds, map_mkSocket_fd.
  exact (proj2 (seq_shape_all_ok _ _ _ _ Hsh Hall)).
Qed.

Lemma packet_count_clamps_group_size_witness :
  nsockets (snd scenario3_run) = 2
  /\ List.length (rds_sockets_of (events_of scenario3_run)) = Z.to_nat 2
  /\ (exists tdiff,
         hd_error (trace (snd scenario3_run))
         = Some (EvStdout (OutSummary 2 tdiff (2 * 2))))
  /\ (Forall send_ok (sends_of (events_of scenario3_run)) ->
      map fst (sends_of (events_of scenario3_run))
      = flat_map (full_sends 2)
          (map mkSocket (rds_sockets_of (events_of scenario3_run)))).
Proof.
  apply (packet_count_clamps_group_size Sim.env_ok
           [Opt_c (mkStrtoull 2 "")] loopback4 2 0 (snd scenario3_run)).
  - reflexivity.
  - reflexivity.
  - lia.
  - vm_compute. reflexivity.
Defined.

(** C4 as stated fails: with packet count 1 and the group size left at
    its default the group is clamped to the count, so one socket is
    created and 1 packet reported, not eight and 8. *)
Lemma scenario1_has_one_socket :
  fst scenario1_run = Ret 0
  /\ rds_sockets_of (events_of scenario1_run) = [3]
  /\ sends_of (events_of scenario1_run) = [(3, 0, 0)]
  /\ reported_packets (events_of scenario1_run) = [1]
  /\ ~ (List.length (rds_sockets_of (events_of scenario1_run)) = 8%nat
        /\ reported_packets (events_of scenario1_run) = [8]).
Proof.
  repeat split; try (vm_compute; reflexivity).
  vm_compute. intros [H _]. discriminate.
Qed.

(** C4, amended. With no explicit source, the group size left at its
    default and packet count 1, a run that completes creates exactly one
    RDS socket, makes exactly one [sendto] call, on that socket, and
    reports 1 socket and 1 packet. *)
Theorem count_one_runs_one_socket env opts dst r s' :
  sets_source opts = false ->
  sets_nsockets opts = false ->
  final_count opts 0 = 1 ->
  main env opts [dst] init_state = (Ret r, s') ->
  exists sock rv e tdiff,
    rds_sockets_of (events_since init_state s') = [sock]
    /\ sends_of (events_since init_state s') = [(sock, rv, e)]
    /\ hd_error (trace s') = Some (EvStdout (OutSummary 1 tdiff 1)).
Proof.
  intros _ Hn Hc Hmain.
  assert (Hrange : 0 < 1 < 8) by lia.
  destruct (main_clamped_run env opts dst 1 r s' Hn Hc Hrange Hmain)
    as (socks & status & tdiff & Hlen & _ & Hrds & Hsh & Hsum).
  destruct socks as [|sk [|sk' rest]]; try discriminate Hlen.
  change (Z.to_nat 1) with 1%nat in Hsh.
  destruct (seq_shape_one _ _ _ Hsh) as (rv & e & Hsends).
  exists (fd sk), rv, e, tdiff.
  split; [exact Hrds|]. split; [exact Hsends | exact Hsum].
Qed.

Lemma count_one_runs_one_socket_witness :
  exists sock rv e tdiff,
    rds_sockets_of (events_of scenario1_run) = [sock]
    /\ sends_of (events_of scenario1_run) = [(sock, rv, e)]
    /\ hd_error (trace (snd scenario1_run))
       = Some (EvStdout (OutSummary 1 tdiff 1)).
Proof.
  apply (count_one_runs_one_socket Sim.env_ok
           [Opt_c (mkStrtoull 1 "")] loopback4 0 (snd scenario1_run)).
  - reflexivity.
  - reflexivity.
  - reflexivity.
  - vm_compute. reflexivity.
Defined.

(** C6 as stated fails: the first send on the third of eight sockets
    fails after the 4 packets of the first two sockets, and the summary
    still reports 16 packets, the full 8 times 2. *)
Lemma scenario4_reports_full_product :
  fst scenario4_run = Ret 0
  /\ sends_of (events_of scenario4_run)
     = [(3, 0, 0); (3, 0, 0); (5, 0, 0); (5, 0, 0);
        (6, -1, Sim.ECONNREFUSED)]
  /\ packets_sent (events_of scenario4_run) = 4
  /\ reported_packets (events_of scenario4_run) = [8 * 2]
  /\ reported_packets (events_of scenario4_run)
     <> [packets_sent (events_of scenario4_run)].
Proof.
  repeat split; try (vm_compute; reflexivity).
  vm_compute. discriminate.
Qed.

(** C6, amended. Whatever happened to the sends, the last thing a run
    that returns has done is to print the summary, and the packet total
    in it is the full product of packet count and group size (as
    [unsigned long], converted to [int]). *)
Theorem summary_reports_full_product env s r s' :
  run_test env s = (Ret r, s') ->
  exists tdiff,
    hd_error (trace s')
    = Some (EvStdout
              (OutSummary (CInt.to_int (nsockets s)) tdiff
                 (CInt.to_int (CInt.wrap_u64 (opt_count s * nsockets s))))).
Proof.
  intros Hrun.
  destruct (run_test_spec env s) as (new & _ & _ & Hret & _).
  rewrite Hrun in Hret. simpl in Hret.
  destruct (Hret r eq_refl)
    as (_ & socks & status & tstart & tend & _ & _ & _ & Hsum).
  exists (tdiff_of tend tstart). exact Hsum.
Qed.

Lemma summary_reports_full_product_witness :
  exists tdiff,
    hd_error
      (trace (snd (run_test (Sim.env_send_fails_after 4 Sim.ECONNREFUSED)
                     scenario4_config)))
    = Some (EvStdout
              (OutSummary (CInt.to_int (nsockets scenario4_config)) tdiff
                 (CInt.to_int
                    (CInt.wrap_u64 (opt_count scenario4_config
                                    * nsockets scenario4_config))))).
Proof.
  apply (summary_reports_full_product
           (Sim.env_send_fails_after 4 Sim.ECONNREFUSED) scenario4_config 0).
  vm_compute. reflexivity.
Defined.

(** C8. When a source address was given ([src_set] is true after the
    options), the destination was resolved, and the two families differ,
    [main] exits with status 1 and the whole run contains no [socket()]
    call and no send. *)
Theorem family_mismatch_rejected_before_sockets
        env opts dst nss s1 rr s2 :
  getopt_loop env opts false false init_state = (Ret (true, nss), s1) ->
  parse_addr env dst set_opt_dstaddr s1 = (Ret rr, s2) ->
  rr <> 0 ->
  sin_family (opt_dstaddr s2) <> sin_family (opt_srcaddr s2) ->
  exists s',
    main env opts [dst] init_state = (Exit 1, s')
    /\ socket_calls_of (events_since init_state s') = []
    /\ sends_of (events_since init_state s') = []
    /\ hd_error (trace s')
       = Some (EvStderr
                 "Source and destination address family are not the same"
                 None).
Proof.
  intros Hloop Hparse Hrr Hfam.
  destruct (main_cases env opts [dst])
    as [(st & s' & Hm & Hst & Hs & Hk)
       | (ss & nss' & s1' & dst' & rr' & s2' & Hop & Hloop' & Hparse'
          & _ & Hfam' & _)].
  - subst st. exists s'. split; [exact Hm|]. split; [exact Hk|].
    split; [exact Hs|].
    revert Hm. unfold main, bind. rewrite Hloop, Hparse.
    destruct (Z.eqb_spec rr 0) as [|_]; [contradiction|].
    unfold check_family, bind, get. simpl.
    destruct (Z.eqb_spec (sin_family (opt_dstaddr s2))
                (sin_family (opt_srcaddr s2))) as [|_]; [contradiction|].
    simpl. unfold die, bind, modify, exit. intros H. inversion H.
    reflexivity.
  - exfalso. inversion Hop; subst dst'.
    rewrite Hloop in Hloop'. inversion Hloop'; subst.
    rewrite Hparse in Hparse'. inversion Hparse'; subst.
    simpl in Hfam'. apply negb_false_iff, Z.eqb_eq in Hfam'.
    contradiction.
Qed.

Lemma family_mismatch_rejected_before_sockets_witness :
  (exists s',
      main Sim.env_ok [Opt_I "10.0.0.1"] [loopback6] init_state
      = (Exit 1, s')
      /\ socket_calls_of (events_since init_state s') = []
      /\ sends_of (events_since init_state s') = []
      /\ hd_error (trace s')
         = Some (EvStderr
                   "Source and destination address family are not the same"
                   None))
  /\ (exists s',
         main Sim.env_ok [Opt_I "::1"] [loopback4] init_state
         = (Exit 1, s')
         /\ socket_calls_of (events_since init_state s') = []
         /\ sends_of (events_since init_state s') = []
         /\ hd_error (trace s')
            = Some (EvStderr
                      "Source and destination address family are not the same"
                      None)).
Proof.
  split.
  - apply (family_mismatch_rejected_before_sockets Sim.env_ok
             [Opt_I "10.0.0.1"] loopback6 false
             (snd (getopt_loop Sim.env_ok [Opt_I "10.0.0.1"] false false
                     init_state))
             1
             (snd (parse_addr Sim.env_ok loopback6 set_opt_dstaddr
                     (snd (getopt_loop Sim.env_ok [Opt_I "10.0.0.1"]
                             false false init_state))))).
    + vm_compute. reflexivity.
    + vm_compute. reflexivity.
    + discriminate.
    + vm_compute. discriminate.
  - apply (family_mismatch_rejected_before_sockets Sim.env_ok
             [Opt_I "::1"] loopback4 false
             (snd (getopt_loop Sim.env_ok [Opt_I "::1"] false false
                     init_state))
             1
             (snd (parse_addr Sim.env_ok loopback4 set_opt_dstaddr
                     (snd (getopt_loop Sim.env_ok [Opt_I "::1"]
                             false false init_state))))).
    + vm_compute. reflexivity.
    + vm_compute. reflexivity.
    + discriminate.
    + vm_compute. discriminate.
Defined.

(** C9 as stated fails: with the packet count left at 0 the run creates
    its eight sockets and sends on none of them. *)
Lemma default_count_sends_nothing :
  fst default_count_run = Ret 0
  /\ List.length (rds_sockets_of (events_of default_count_run)) = 8%nat
  /\ sends_of (events_of default_count_run) = []
  /\ ~ (forall sock,
           In sock (rds_sockets_of (events_of default_count_run)) ->
           exists rv e, In (sock, rv, e)
                           (sends_of (events_of default_count_run))).
Proof.
  repeat split; try (vm_compute; reflexivity).
  intros H. destruct (H 3) as (rv & e & Hin).
  - vm_compute. left. reflexivity.
  - vm_compute in Hin. exact Hin.
Qed.

(** C9, amended. When the options leave the packet count at its default
    0, no [sendto] call is made in the whole run: zero sends per socket. *)
Theorem default_count_means_no_send env opts operands :
  final_count opts 0 = 0 ->
  sends_of (events_since init_state
              (snd (main env opts operands init_state))) = [].
Proof.
  intros Hc.
  destruct (main_cases env opts operands)
    as [(st & s' & Hm & _ & Hs & _)
       | (ss & nss & s1 & dst & rr & s2 & _ & _ & _ & _ & _ & Hrun & Hs
          & _ & Hcnt & _)].
  - rewrite Hm. exact Hs.
  - rewrite Hrun. rewrite Hc in Hcnt.
    assert (Hcl : clamped nss s2 = s2).
    { unfold clamped. rewrite Hcnt. simpl. rewrite andb_false_r.
      reflexivity. }
    rewrite Hcl in *.
    destruct (run_test_spec env s2) as (new & Hg & _ & Hret & Hexit).
    rewrite (grows_events_since _ _ _
               (grows_trans _ _ _ _ _ (grows_from_init s2) Hg)).
    rewrite sends_of_app, Hs. simpl.
    destruct (fst (run_test env s2)) as [r|st] eqn:Hout.
    + destruct (Hret r eq_refl)
        as (_ & socks & status & tstart & tend & _ & _ & Hsh & _).
      rewrite Hcnt in Hsh. apply seq_shape_zero in Hsh. exact Hsh.
    + exact (Hexit st eq_refl).
Qed.

Lemma default_count_means_no_send_witness :
  sends_of (events_since init_state
              (snd (main Sim.env_ok [] [loopback4] init_state))) = [].
Proof.
  apply (default_count_means_no_send Sim.env_ok [] [loopback4]).
  reflexivity.
Defined.

(** * Further properties of the code *)

(** ** [usec_sub] and the elapsed time *)

Lemma wrap_s64_of_u64 x : CInt.wrap_s64 (CInt.wrap_u64 x) = CInt.wrap_s64 x.
Proof.
  unfold CInt.wrap_s64, CInt.wrap_u64.
  rewrite Zplus_mod_idemp_l. reflexivity.
Qed.

Lemma wrap_s64_id x : - 2 ^ 63 <= x < 2 ^ 63 -> CInt.wrap_s64 x = x.
Proof.
  intros H. unfold CInt.wrap_s64.
  rewrite Z.mod_small by lia. lia.
Qed.

Lemma usec_sub_in_range a b :
  - 2 ^ 63 <= tv_sec a - tv_sec b < 2 ^ 63 ->
  - 2 ^ 63 <= usec_diff a b < 2 ^ 63 ->
  usec_sub a b = usec_diff a b.
Proof.
  intros Hsec Hdiff. unfold usec_sub, usec_diff in *.
  rewrite (wrap_s64_id (tv_sec a - tv_sec b)) by exact Hsec.
  set (p := (tv_sec a - tv_sec b) * 1000000) in *.
  unfold CInt.wrap_s64, CInt.wrap_u64.
  rewrite Zplus_mod_idemp_l.
  replace ((p mod 2 ^ 64 + tv_usec a) mod 2 ^ 64 - tv_usec b + 2 ^ 63)
    with ((p mod 2 ^ 64 + tv_usec a) mod 2 ^ 64 + (2 ^ 63 - tv_usec b))
    by ring.
  rewrite Zplus_mod_idemp_l.
  replace (p mod 2 ^ 64 + tv_usec a + (2 ^ 63 - tv_usec b))
    with (p mod 2 ^ 64 + (tv_usec a + 2 ^ 63 - tv_usec b)) by ring.
  rewrite Zplus_mod_idemp_l.
  rewrite Z.mod_small by lia. lia.
Qed.

(** X1. As long as the difference of the seconds and the difference in
    microseconds both fit a [long], [usec_sub] is the exact microsecond
    difference: the detour through [unsigned long] arithmetic loses
    nothing, also when the result is negative. *)
Theorem usec_sub_exact a b :
  - 2 ^ 63 <= tv_sec a - tv_sec b < 2 ^ 63 ->
  - 2 ^ 63 <= usec_diff a b < 2 ^ 63 ->
  usec_sub a b = usec_diff a b.
Proof. exact (usec_sub_in_range a b). Qed.

Lemma usec_sub_exact_witness :
  usec_sub (mkTimeval 10 250) (mkTimeval 12 100)
  = usec_diff (mkTimeval 10 250) (mkTimeval 12 100).
Proof.
  apply (usec_sub_exact (mkTimeval 10 250) (mkTimeval 12 100));
    unfold usec_diff; simpl; lia.
Defined.

(** X2. The milliseconds that [run_test] converts to [float] are the
    microsecond difference divided by 1000 and truncated toward zero:
    they are less than one millisecond away from it and never beyond
    it, so any run shorter than a millisecond is reported as 0. *)
Theorem tdiff_truncates_toward_zero tend tstart :
  - 2 ^ 63 <= tv_sec tend - tv_sec tstart < 2 ^ 63 ->
  - 2 ^ 63 <= usec_diff tend tstart < 2 ^ 63 ->
  Z.abs (usec_diff tend tstart - 1000 * tdiff_of tend tstart) < 1000
  /\ (0 <= usec_diff tend tstart ->
      0 <= 1000 * tdiff_of tend tstart <= usec_diff tend tstart)
  /\ (usec_diff tend tstart <= 0 ->
      usec_diff tend tstart <= 1000 * tdiff_of tend tstart <= 0)
  /\ (Z.abs (usec_diff tend tstart) < 1000 -> tdiff_of tend tstart = 0).
Proof.
  intros Hsec Hdiff. unfold tdiff_of.
  rewrite (usec_sub_in_range _ _ Hsec Hdiff).
  set (d := usec_diff tend tstart) in *.
  pose proof (Z.quot_rem' d 1000) as Hqr.
  assert (Habs : Z.abs (Z.rem d 1000) < 1000)
    by (apply Z.rem_bound_abs; lia).
  split; [replace (d - 1000 * (d ÷ 1000)) with (Z.rem d 1000) by lia;
          exact Habs|].
  split.
  { intros Hd. pose proof (Z.rem_bound_pos d 1000 Hd ltac:(lia)).
    pose proof (Z.quot_pos d 1000 Hd ltac:(lia)). lia. }
  split.
  { intros Hd.
    pose proof (Z.quot_opp_l d 1000 ltac:(lia)) as Hopp.
    pose proof (Z.quot_rem' (- d) 1000) as Hqr'.
    pose proof (Z.rem_bound_pos (- d) 1000 ltac:(lia) ltac:(lia)).
    pose proof (Z.quot_pos (- d) 1000 ltac:(lia) ltac:(lia)). lia. }
  intros Hsmall. apply Z.quot_small_iff; lia.
Qed.

Lemma tdiff_truncates_toward_zero_witness :
  Z.abs (usec_diff (mkTimeval 3 200) (mkTimeval 2 999700)
         - 1000 * tdiff_of (mkTimeval 3 200) (mkTimeval 2 999700)) < 1000
  /\ (0 <= usec_diff (mkTimeval 3 200) (mkTimeval 2 999700) ->
      0 <= 1000 * tdiff_of (mkTimeval 3 200) (mkTimeval 2 999700)
        <= usec_diff (mkTimeval 3 200) (mkTimeval 2 999700))
  /\ (usec_diff (mkTimeval 3 200) (mkTimeval 2 999700) <= 0 ->
      usec_diff (mkTimeval 3 200) (mkTimeval 2 999700)
      <= 1000 * tdiff_of (mkTimeval 3 200) (mkTimeval 2 999700) <= 0)
  /\ (Z.abs (usec_diff (mkTimeval 3 200) (mkTimeval 2 999700)) < 1000 ->
      tdiff_of (mkTimeval 3 200) (mkTimeval 2 999700) = 0).
Proof.
  apply (tdiff_truncates_toward_zero (mkTimeval 3 200) (mkTimeval 2 999700));
    unfold usec_diff; simpl; lia.
Defined.

(** ** [parse_long] *)

Lemma suffix_shift_cases c :
  (suffix_shift c = Some 10 /\ (c = "k" \/ c = "K")%char)
  \/ (suffix_shift c = Some 20 /\ (c = "m" \/ c = "M")%char)
  \/ (suffix_shift c = Some 30 /\ (c = "g" \/ c = "G")%char)
  \/ (suffix_shift c = None
      /\ c <> "k" /\ c <> "K" /\ c <> "m" /\ c <> "M"
      /\ c <> "g" /\ c <> "G")%char.
Proof.
  unfold suffix_shift.
  destruct (Ascii.eqb_spec c "k"); [left; simpl; auto|].
  destruct (Ascii.eqb_spec c "K"); [left; simpl; auto|].
  destruct (Ascii.eqb_spec c "m"); [right; left; simpl; auto|].
  destruct (Ascii.eqb_spec c "M"); [right; left; simpl; auto|].
  destruct (Ascii.eqb_spec c "g"); [right; right; left; simpl; auto|].
  destruct (Ascii.eqb_spec c "G"); [right; right; left; simpl; auto|].
  right; right; right. simpl. auto 10.
Qed.

(** X3. [parse_long] accepts an argument exactly when nothing follows
    the number, or a single one of the letters k K m M g G does; any
    other character, and anything after the letter, makes it fail. *)
Theorem parse_long_accepts a :
  parse_long a <> None
  <-> su_end a = EmptyString
      \/ exists c, su_end a = String c EmptyString
                   /\ (c = "k" \/ c = "K" \/ c = "m" \/ c = "M"
                       \/ c = "g" \/ c = "G")%char.
Proof.
  unfold parse_long. destruct (su_end a) as [|c rest] eqn:Hend.
  - split; [auto | discriminate].
  - destruct (Ascii.eqb_spec c "k"); [subst|];
      [|destruct (Ascii.eqb_spec c "K"); [subst|];
        [|destruct (Ascii.eqb_spec c "m"); [subst|];
          [|destruct (Ascii.eqb_spec c "M"); [subst|];
            [|destruct (Ascii.eqb_spec c "g"); [subst|];
              [|destruct (Ascii.eqb_spec c "G"); [subst|]]]]]];
      simpl.
    1-6: destruct rest; split;
      [ intros _; right; eexists; split; [reflexivity | auto 10]
      | discriminate
      | intros H; exfalso; apply H; reflexivity
      | intros [H | (c' & H & _)]; discriminate ].
    split; [intros H; exfalso; apply H; reflexivity|].
    intros [H | (c' & H & Hc)]; [discriminate|].
    inversion H; subst. intuition congruence.
Qed.

(** X4. With a suffix letter the number is shifted by 10, 20 or 30 bits
    in 64 bits: the result is the number times 2^10, 2^20 or 2^30 modulo
    2^64, the exact product when that fits, and it wraps around without
    any error when it does not; without a letter the number passes
    through.  What is stored always fits an [unsigned long]. *)
Theorem parse_long_scales v c sh :
  0 <= v < 2 ^ 64 ->
  suffix_shift c = Some sh ->
  parse_long (mkStrtoull v (String c EmptyString))
  = Some ((v * 2 ^ sh) mod 2 ^ 64)
  /\ (v * 2 ^ sh < 2 ^ 64 ->
      parse_long (mkStrtoull v (String c EmptyString)) = Some (v * 2 ^ sh))
  /\ parse_long (mkStrtoull v EmptyString) = Some v
  /\ (forall rest r, parse_long (mkStrtoull v rest) = Some r ->
                     0 <= r < 2 ^ 64).
Proof.
  intros Hv Hsh.
  assert (Hmain : parse_long (mkStrtoull v (String c EmptyString))
                  = Some ((v * 2 ^ sh) mod 2 ^ 64)).
  { unfold parse_long, suffix_shift in *. simpl.
    destruct ((c =? "k")%char || (c =? "K")%char);
      [inversion Hsh; subst; unfold CInt.shl_u64, CInt.wrap_u64;
       rewrite Z.shiftl_mul_pow2 by lia; reflexivity|].
    destruct ((c =? "m")%char || (c =? "M")%char);
      [inversion Hsh; subst; unfold CInt.shl_u64, CInt.wrap_u64;
       rewrite Z.shiftl_mul_pow2 by lia; reflexivity|].
    destruct ((c =? "g")%char || (c =? "G")%char);
      [inversion Hsh; subst; unfold CInt.shl_u64, CInt.wrap_u64;
       rewrite Z.shiftl_mul_pow2 by lia; reflexivity|].
    discriminate. }
  split; [exact Hmain|].
  split.
  { intros Hfit. rewrite Hmain. f_equal. apply Z.mod_small.
    assert (0 < 2 ^ sh).
    { apply Z.pow_pos_nonneg; [lia|].
      destruct (suffix_shift_cases c) as [[H _]|[[H _]|[[H _]|[H _]]]];
        rewrite H in Hsh; inversion Hsh; lia. }
    nia. }
  split; [reflexivity|].
  intros rest r. unfold parse_long. simpl.
  destruct rest as [|c' rest']; [intros H; inversion H; subst; exact Hv|].
  assert (Hshl : forall k, 0 <= CInt.shl_u64 v k < 2 ^ 64).
  { intros k. unfold CInt.shl_u64, CInt.wrap_u64.
    apply Z.mod_pos_bound. lia. }
  destruct ((c' =? "k")%char || (c' =? "K")%char);
    [destruct rest'; intros H; inversion H; subst; apply Hshl|].
  destruct ((c' =? "m")%char || (c' =? "M")%char);
    [destruct rest'; intros H; inversion H; subst; apply Hshl|].
  destruct ((c' =? "g")%char || (c' =? "G")%char);
    [destruct rest'; intros H; inversion H; subst; apply Hshl|].
  discriminate.
Qed.

Lemma parse_long_scales_witness :
  parse_long (mkStrtoull 3 "k") = Some ((3 * 2 ^ 10) mod 2 ^ 64)
  /\ (3 * 2 ^ 10 < 2 ^ 64 ->
      parse_long (mkStrtoull 3 "k") = Some (3 * 2 ^ 10))
  /\ parse_long (mkStrtoull 3 EmptyString) = Some 3
  /\ (forall rest r, parse_long (mkStrtoull 3 rest) = Some r ->
                     0 <= r < 2 ^ 64).
Proof.
  apply (parse_long_scales 3 "k" 10); [lia | reflexivity].
Defined.

(** ** [include/rds.h]: the congestion-monitor mask *)

Lemma cong_monitor_bit_mod port : RDS_CONG_MONITOR_BIT port = port mod 64.
Proof.
  unfold RDS_CONG_MONITOR_BIT, RDS_CONG_MONITOR_SIZE.
  apply Z.mod_mod_divide. exists (2 ^ 26). reflexivity.
Qed.

Lemma cong_monitor_mask_pow port :
  RDS_CONG_MONITOR_MASK port = 2 ^ (port mod 64).
Proof.
  unfold RDS_CONG_MONITOR_MASK, CInt.shl_u64, CInt.wrap_u64.
  rewrite cong_monitor_bit_mod.
  pose proof (Z.mod_pos_bound port 64 ltac:(lia)) as Hb.
  rewrite Z.shiftl_mul_pow2, Z.mul_1_l by lia.
  apply Z.mod_small. split; [apply Z.pow_nonneg; lia|].
  apply Z.pow_lt_mono_r; lia.
Qed.

(** X5. The congestion-monitor mask of a port (of any [int] value, also a
    negative one) has exactly one bit set, the bit [port mod 64], so it is
    a non-zero 64-bit value; two ports have the same mask exactly when
    they are congruent modulo 64. *)
Theorem cong_monitor_mask_one_bit port :
  0 <= RDS_CONG_MONITOR_BIT port < 64
  /\ RDS_CONG_MONITOR_BIT port = port mod 64
  /\ 0 < RDS_CONG_MONITOR_MASK port < 2 ^ 64
  /\ (forall i, 0 <= i ->
                Z.testbit (RDS_CONG_MONITOR_MASK port) i
                = (RDS_CONG_MONITOR_BIT port =? i))
  /\ (forall other,
         RDS_CONG_MONITOR_MASK port = RDS_CONG_MONITOR_MASK other
         <-> port mod 64 = other mod 64).
Proof.
  pose proof (Z.mod_pos_bound port 64 ltac:(lia)) as Hb.
  rewrite cong_monitor_bit_mod, cong_monitor_mask_pow.
  split; [exact Hb|]. split; [reflexivity|].
  split.
  { split; [apply Z.pow_pos_nonneg; lia | apply Z.pow_lt_mono_r; lia]. }
  split.
  { intros i Hi. apply Z.pow2_bits_eqb. lia. }
  intros other. rewrite cong_monitor_mask_pow.
  pose proof (Z.mod_pos_bound other 64 ltac:(lia)) as Ho.
  split; [|intros ->; reflexivity].
  intros H. apply (Z.pow_inj_r 2); lia.
Qed.

(** ** The spin loop in any environment *)

Lemma spin_loop_char env sock sp_cnt s :
  sp_cnt < SPIN_MAX ->
  exists init last,
    queries_of (events_since s (snd (spin_loop env sock sp_cnt s)))
    = init ++ [last]
    /\ Forall still_pending init
    /\ sp_cnt + Z.of_nat (List.length init) < SPIN_MAX
    /\ ((snd (fst last) <> 0
         /\ fst (spin_loop env sock sp_cnt s)
            = - errno (snd (spin_loop env sock sp_cnt s)))
        \/ (snd (fst last) = 0
            /\ fst (spin_loop env sock sp_cnt s)
               = sp_cnt + Z.of_nat (List.length init) + 1
            /\ (snd last = 0
                \/ fst (spin_loop env sock sp_cnt s) = SPIN_MAX))).
Proof.
  funelim (spin_loop env sock sp_cnt s); intros Hlt.
  - apply sys_ioctl_outq_inv in Heq0. destruct Heq0 as (er & _ & ->).
    exists [], (sock, r, pend). simpl.
    rewrite (grows_events_since _ _ [EvOutq sock r pend])
      by apply grows_record.
    split; [reflexivity|]. split; [constructor|]. split; [lia|].
    left. split; [|reflexivity].
    destruct (Z.eqb_spec r 0); [discriminate | assumption].
  - assert (Hc' : sp_cnt + 1 < SPIN_MAX).
    { destruct (andb_prop _ _ Hc) as [_ Hx]. apply Z.ltb_lt, Hx. }
    assert (Hp : pend <> 0).
    { destruct (andb_prop _ _ Hc) as [Hx _].
      apply negb_true_iff in Hx. destruct (Z.eqb_spec pend 0);
        [discriminate | assumption]. }
    assert (Hr : r = 0) by (apply Z.eqb_eq; assumption).
    destruct (H Hc') as (init & last & Hq & Hinit & Hlen & Hcase).
    destruct (spin_loop_events env sock (sp_cnt + 1) s1)
      as (new & Hg & _ & _).
    apply sys_ioctl_outq_inv in Heq0. destruct Heq0 as (er & _ & Hs1).
    rewrite (grows_events_since _ _ _ Hg) in Hq.
    assert (Hg' : grows s (snd (spin_loop env sock (sp_cnt + 1) s1))
                    ([EvOutq sock r pend] ++ new)).
    { eapply grows_trans; [|exact Hg]. subst s1. apply grows_record. }
    exists ((sock, r, pend) :: init), last.
    rewrite (grows_events_since _ _ _ Hg'). simpl. rewrite Hq.
    split; [reflexivity|].
    split; [constructor; [split; simpl; assumption | exact Hinit]|].
    split; [lia|].
    destruct Hcase as [[Hl Hres] | (Hl & Hres & Hstop)].
    + left. split; assumption.
    + right. split; [assumption|]. split; [lia | exact Hstop].
  - apply sys_ioctl_outq_inv in Heq0. destruct Heq0 as (er & _ & Hs1).
    exists [], (sock, r, pend). simpl.
    rewrite (grows_events_since s s1 [EvOutq sock r pend])
      by (subst s1; apply grows_record).
    split; [reflexivity|]. split; [constructor|]. split; [lia|].
    right. split; [apply Z.eqb_eq; assumption|]. split; [lia|].
    match goal with
    | Hf : negb (pend =? 0) && _ = false |- _ =>
        destruct (proj1 (andb_false_iff _ _) Hf) as [Hz|Hz]
    end.
    + left. apply negb_false_iff, Z.eqb_eq in Hz. exact Hz.
    + right. apply Z.ltb_ge in Hz. lia.
Qed.

(** X6. In any environment the drain-spin step returns after at least
    one and at most 100000 queries, all of them on the given socket, and
    it does nothing else (no send, no output, no option variable
    changed).  Every query but the last went through and found bytes
    pending.  If the last query failed, the result is minus the [errno]
    it left; otherwise the result is the number of queries made, and the
    last query found the queue empty unless the count is at the
    ceiling. *)
Theorem drain_spin_in_any_environment env sock s :
  exists r s' new init last,
    spin_on_one_socket env sock s = (Ret r, s')
    /\ grows s s' new
    /\ config s' = config s
    /\ Forall (fun ev => exists rq pend, ev = EvOutq sock rq pend) new
    /\ queries_of new = init ++ [last]
    /\ Forall still_pending init
    /\ Z.of_nat (List.length init) < 100000
    /\ ((snd (fst last) <> 0 /\ r = - errno s')
        \/ (snd (fst last) = 0
            /\ r = Z.of_nat (List.length init) + 1
            /\ (snd last = 0 \/ r = 100000))).
Proof.
  unfold spin_on_one_socket.
  assert (Hlt : 0 < SPIN_MAX) by (unfold SPIN_MAX; lia).
  destruct (spin_loop_char env sock 0 s Hlt)
    as (init & last & Hq & Hinit & Hlen & Hcase).
  destruct (spin_loop_events env sock 0 s) as (new & Hg & Hc & Hall).
  rewrite (grows_events_since _ _ _ Hg) in Hq.
  destruct (spin_loop env sock 0 s) as [r s']. simpl in *.
  exists r, s', new, init, last. unfold SPIN_MAX in *.
  do 6 (split; [first [reflexivity | assumption]|]).
  split; [lia|].
  destruct Hcase as [[Hl Hres] | (Hl & Hres & Hstop)];
    [left; split; assumption|].
  right. split; [assumption|]. split; [lia | exact Hstop].
Qed.

(** ** What the scheduler does and does not do *)

Lemma grows_unique s s' a b : grows s s' a -> grows s s' b -> a = b.
Proof.
  unfold grows. intros Ha Hb. rewrite Ha in Hb.
  apply app_inv_tail in Hb. apply (f_equal (@rev event)) in Hb.
  rewrite !rev_involutive in Hb. exact Hb.
Qed.

Lemma send_loop_only_sends env n sock dst msglen s :
  exists new,
    grows s (snd (send_loop env n sock dst msglen s)) new
    /\ Forall (fun ev => exists r e, ev = EvSendto sock dst msglen r e) new.
Proof.
  revert s. induction n as [|n IH]; intros s.
  - exists []. split; [apply grows_refl | constructor].
  - destruct (sys_sendto_inv env sock dst msglen s) as (r & e & _ & Hs).
    simpl. unfold bind. rewrite Hs.
    destruct (r =? 0).
    + destruct (IH (record e (EvSendto sock dst msglen r e) s))
        as (new & Hg & Hall).
      exists ([EvSendto sock dst msglen r e] ++ new). split.
      * eapply grows_trans; [apply grows_record | exact Hg].
      * constructor; eauto.
    + exists [EvSendto sock dst msglen r e]. unfold get, ret. simpl.
      split; [reflexivity|]. repeat constructor. eauto.
Qed.

Lemma sched_event_weaken sk socks dst msglen ev :
  sched_event socks dst msglen ev -> sched_event (sk :: socks) dst msglen ev.
Proof.
  intros [(k & r & e & Hin & ->) | [(k & r & p & Hin & ->) | (c & i & ->)]].
  - left. exists k, r, e. split; [right; exact Hin | reflexivity].
  - right; left. exists k, r, p. split; [right; exact Hin | reflexivity].
  - right; right. eauto.
Qed.

Lemma seq_loop_events env socks : forall idx dst per_sock msglen s,
  exists r s' new counts,
    seq_loop env socks idx dst per_sock msglen s = (Ret r, s')
    /\ grows s s' new
    /\ Forall (sched_event socks dst msglen) new
    /\ (use_siocoutq s = false -> queries_of new = [] /\ stdout_of new = [])
    /\ (use_siocoutq s = true ->
        stdout_of new = spun_lines idx counts
        /\ (r = 0 -> List.length counts = List.length socks)
        /\ (r <> 0 -> (List.length counts < List.length socks)%nat)).
Proof.
  induction socks as [|sk rest IH]; intros idx dst per_sock msglen s.
  - exists 0, s, [], []. simpl. unfold ret.
    split; [reflexivity|]. split; [apply grows_refl|].
    split; [constructor|]. split; [auto|].
    intros _. split; [reflexivity|]. split; [reflexivity | congruence].
  - simpl. unfold send_on_one_socket, bind.
    destruct (send_loop_spec env (Z.to_nat per_sock) (fd sk) dst msglen s)
      as (r & s1 & new1 & oks & tail & Hrun & Hg1 & Hc1 & _ & Ho1 & _).
    destruct (send_loop_only_sends env (Z.to_nat per_sock) (fd sk) dst
                msglen s) as (new1' & Hg1' & Hall1).
    rewrite Hrun in *. simpl in Hg1'.
    rewrite <- (grows_unique _ _ _ _ Hg1 Hg1') in Hall1. clear Hg1' new1'.
    assert (Hq1 : queries_of new1 = []).
    { clear - Hall1. induction Hall1 as [|ev l (r & e & ->) _ IHl];
        simpl; auto. }
    assert (Hev1 : Forall (sched_event (sk :: rest) dst msglen) new1).
    { eapply Forall_impl; [|exact Hall1].
      intros ev (r0 & e0 & ->). left. exists sk, r0, e0.
      split; [left; reflexivity | reflexivity]. }
    assert (Hu1 : use_siocoutq s1 = use_siocoutq s)
      by (inversion Hc1; reflexivity).
    destruct (Z.eqb_spec r 0) as [Hr0|Hr0]; simpl.
    + (* the sends of this socket are done: spin, then the rest *)
      unfold spin_if_enabled, bind, get.
      destruct (use_siocoutq s1) eqn:Hu.
      * unfold spin_on_one_socket.
        destruct (spin_loop_events env (fd sk) 0 s1)
          as (new2 & Hg2 & Hc2 & Hall2).
        destruct (spin_loop env (fd sk) 0 s1) as [sp s2]. simpl in *.
        unfold printf, modify.
        set (s3 := emit (EvStdout (OutSpun sp idx)) s2).
        destruct (IH (idx + 1) dst per_sock msglen s3)
          as (r' & s' & new3 & counts & Hrun3 & Hg3 & Hall3 & _ & Hon).
        exists r', s',
          (new1 ++ new2 ++ [EvStdout (OutSpun sp idx)] ++ new3),
          (sp :: counts).
        split; [exact Hrun3|].
        split.
        { eapply grows_trans; [exact Hg1|].
          eapply grows_trans; [exact Hg2|].
          eapply grows_trans; [apply grows_emit | exact Hg3]. }
        split.
        { apply Forall_app. split; [exact Hev1|].
          apply Forall_app. split.
          - eapply Forall_impl; [|exact Hall2].
            intros ev (rq & p & ->). right; left. exists sk, rq, p.
            split; [left; reflexivity | reflexivity].
          - constructor; [right; right; eauto|].
            eapply Forall_impl; [|exact Hall3].
            intros ev. apply sched_event_weaken. }
        split; [congruence|].
        intros _.
        assert (Hu3 : use_siocoutq s3 = true).
        { unfold s3. simpl. inversion Hc2. congruence. }
        destruct (Hon Hu3) as (Hout & Hz & Hnz).
        destruct (only_queries _ _ Hall2) as (_ & _ & Ho2).
        split.
        { rewrite !stdout_of_app, Ho1, Ho2. simpl. rewrite Hout.
          reflexivity. }
        split; [intros Hr; simpl; rewrite (Hz Hr); reflexivity|].
        intros Hr. simpl. specialize (Hnz Hr). lia.
      * unfold ret.
        destruct (IH (idx + 1) dst per_sock msglen s1)
          as (r' & s' & new3 & counts & Hrun3 & Hg3 & Hall3 & Hoff & _).
        exists r', s', (new1 ++ new3), [].
        split; [exact Hrun3|].
        split; [eapply grows_trans; eassumption|].
        split.
        { apply Forall_app. split; [exact Hev1|].
          eapply Forall_impl; [|exact Hall3].
          intros ev. apply sched_event_weaken. }
        split; [|congruence].
        intros _. destruct (Hoff Hu) as [Hq3 Ho3].
        rewrite queries_of_app, stdout_of_app, Hq1, Ho1, Hq3, Ho3. auto.
    + exists r, s1, new1, []. unfold ret.
      split; [reflexivity|]. split; [exact Hg1|]. split; [exact Hev1|].
      split; [auto|].
      intros _. split; [exact Ho1|]. split; [contradiction|].
      intros _. simpl. lia.
Qed.

Lemma scheduler_stays_within_group_aux
      env nsocks dst n_socks per_sock msglen s :
  exists r s' new,
    send_on_n_sockets_seq env nsocks dst n_socks per_sock msglen s
    = (Ret r, s')
    /\ grows s s' new
    /\ config s' = config s
    /\ Forall (sched_event (firstn (Z.to_nat n_socks) nsocks) dst msglen) new.
Proof.
  unfold send_on_n_sockets_seq.
  destruct (seq_loop_spec env (firstn (Z.to_nat n_socks) nsocks) 0 dst
              per_sock msglen s)
    as (r & s' & new & Hrun & Hg & Hc & _).
  destruct (seq_loop_events env (firstn (Z.to_nat n_socks) nsocks) 0 dst
              per_sock msglen s)
    as (r' & s'' & new' & counts & Hrun' & Hg' & Hall & _).
  rewrite Hrun in Hrun'. inversion Hrun'; subst r' s''.
  rewrite <- (grows_unique _ _ _ _ Hg Hg') in Hall.
  exists r, s', new. auto.
Qed.

(** X7. Whatever the environment does, the scheduler returns, and all
    it has done is: send to the given destination, with the given
    length, on descriptors of the group; query the outbound queue of
    descriptors of the group; print "Spun" lines.  It creates no socket,
    changes no option variable, and makes at most group size times
    [per_sock] sends, hence none when either is zero or negative. *)
Theorem scheduler_stays_within_group
        env nsocks dst n_socks per_sock msglen s :
  exists r s' new,
    send_on_n_sockets_seq env nsocks dst n_socks per_sock msglen s
    = (Ret r, s')
    /\ grows s s' new
    /\ config s' = config s
    /\ Forall (sched_event (firstn (Z.to_nat n_socks) nsocks) dst msglen) new
    /\ socket_calls_of new = []
    /\ (List.length (sends_of new)
        <= List.length (firstn (Z.to_nat n_socks) nsocks)
           * Z.to_nat per_sock)%nat
    /\ (per_sock <= 0 \/ n_socks <= 0 -> sends_of new = []).
Proof.
  unfold send_on_n_sockets_seq.
  destruct (seq_loop_spec env (firstn (Z.to_nat n_socks) nsocks) 0 dst
              per_sock msglen s)
    as (r & s' & new & Hrun & Hg & Hc & Hk & Hsh).
  destruct (seq_loop_events env (firstn (Z.to_nat n_socks) nsocks) 0 dst
              per_sock msglen s)
    as (r' & s'' & new' & counts & Hrun' & Hg' & Hall & _).
  rewrite Hrun in Hrun'. inversion Hrun'; subst r' s''.
  rewrite <- (grows_unique _ _ _ _ Hg Hg') in Hall.
  pose proof (seq_shape_length _ _ _ _ Hsh) as Hlen.
  exists r, s', new.
  do 6 (split; [assumption|]).
  intros Hz.
  assert (Hzero : (List.length (firstn (Z.to_nat n_socks) nsocks)
                   * Z.to_nat per_sock = 0)%nat).
  { destruct Hz as [Hz|Hz].
    - replace (Z.to_nat per_sock) with 0%nat by lia. lia.
    - replace (Z.to_nat n_socks) with 0%nat by lia. reflexivity. }
  rewrite Hzero in Hlen.
  destruct (sends_of new); [reflexivity | simpl in Hlen; lia].
Qed.

(** X8. Without drain-spin the scheduler makes no queue query and prints
    nothing.  With it, it prints one "Spun" line per socket whose sends
    were completed, numbered from 0 in group order: a line for every
    socket of the group when the result is 0, for fewer when it is not. *)
Theorem scheduler_spin_reporting
        env nsocks dst n_socks per_sock msglen s :
  exists r s' new counts,
    send_on_n_sockets_seq env nsocks dst n_socks per_sock msglen s
    = (Ret r, s')
    /\ grows s s' new
    /\ (use_siocoutq s = false -> queries_of new = [] /\ stdout_of new = [])
    /\ (use_siocoutq s = true ->
        stdout_of new = spun_lines 0 counts
        /\ (r = 0 ->
            List.length counts
            = List.length (firstn (Z.to_nat n_socks) nsocks))
        /\ (r <> 0 ->
            (List.length counts
             < List.length (firstn (Z.to_nat n_socks) nsocks))%nat)).
Proof.
  unfold send_on_n_sockets_seq.
  destruct (seq_loop_events env (firstn (Z.to_nat n_socks) nsocks) 0 dst
              per_sock msglen s)
    as (r & s' & new & counts & Hrun & Hg & _ & Hoff & Hon).
  exists r, s', new, counts. auto.
Qed.

(** ** Socket creation in detail *)

Section CreationDetail.

Variable env : Env.

Lemma rds_socket_detail s :
  match rds_socket env s with
  | (Exit st, _) => st = 1
  | (Ret sock, s') =>
      exists new,
        grows s s' new
        /\ 0 <= sock
        /\ inet_family (sin_family (opt_srcaddr s'))
        /\ sin_port (opt_srcaddr s') = 0
        /\ binds_of new
           = [(sock, opt_srcaddr s',
               sockaddr_len (sin_family (opt_srcaddr s')), 0)]
        /\ settos_of new
           = (if opt_tos s =? 0 then [] else [(sock, opt_tos s, 0)])
        /\ sin_family (opt_dstaddr s') = sin_family (opt_dstaddr s)
        /\ sin_addr (opt_dstaddr s') = sin_addr (opt_dstaddr s)
        /\ ((sin_family (opt_srcaddr s) <> AF_UNSPEC
             /\ socket_calls_of new = [EvSocket PF_RDS SOCK_SEQPACKET 0 sock]
             /\ closes_of new = []
             /\ opt_srcaddr s' = set_port 0 (opt_srcaddr s)
             /\ opt_dstaddr s' = opt_dstaddr s)
            \/ (sin_family (opt_srcaddr s) = AF_UNSPEC
                /\ inet_family (sin_family (opt_dstaddr s))
                /\ sin_port (opt_dstaddr s') = 0
                /\ exists ufd,
                    0 <= ufd
                    /\ socket_calls_of new
                       = [EvSocket PF_RDS SOCK_SEQPACKET 0 sock;
                          EvSocket (sin_family (opt_dstaddr s))
                            SOCK_DGRAM 0 ufd]
                    /\ closes_of new = [ufd]))
  end.
Proof.
  unfold rds_socket, guess_source, sys_close, die_errno, die, bind, get,
    modify, exit, ret.
  run_all.
  all: try reflexivity.
  all: eexists; split; [solve_grows|].
  all: simpl in *.
  all: repeat match goal with
       | H : (_ <? 0) = false |- _ => apply Z.ltb_ge in H
       | H : (_ =? _) = true |- _ => apply Z.eqb_eq in H
       | H : (_ =? _) = false |- _ => apply Z.eqb_neq in H
       | H : negb _ = false |- _ => apply negb_false_iff in H
       | H : negb _ = true |- _ => apply negb_true_iff in H
       | H : _ || _ = true |- _ => apply orb_true_iff in H
       | H : _ || _ = false |- _ => apply orb_false_iff in H; destruct H
       end.
  all: unfold inet_family, sockaddr_len.
  all: try (exfalso; unfold AF_UNSPEC, AF_INET, AF_INET6 in *; lia).
  all: subst.
  all: repeat match goal with
       | H : ?x = AF_INET |- context [?x =? AF_INET] =>
           rewrite (proj2 (Z.eqb_eq _ _) H)
       | H : ?x <> AF_INET |- context [?x =? AF_INET] =>
           rewrite (proj2 (Z.eqb_neq _ _) H)
       end.
  all: do 7 (split; [solve [auto]|]).
  all: first
         [ left; repeat split; auto;
           unfold AF_UNSPEC, AF_INET, AF_INET6 in *; lia
         | right; split; [assumption|]; split; [solve [auto]|];
           split; [reflexivity|]; eexists; repeat split; eauto ].
Qed.

End CreationDetail.

Lemma set_port_same a : sin_port a = 0 -> set_port 0 a = a.
Proof. destruct a as [f p x]. simpl. intros ->. reflexivity. Qed.

Lemma binds_of_app a b : binds_of (a ++ b) = binds_of a ++ binds_of b.
Proof.
  induction a as [|ev a IH]; simpl; [reflexivity|].
  destruct ev; simpl; rewrite ?IH; reflexivity.
Qed.

Lemma settos_of_app a b : settos_of (a ++ b) = settos_of a ++ settos_of b.
Proof.
  induction a as [|ev a IH]; simpl; [reflexivity|].
  destruct ev; simpl; rewrite ?IH; reflexivity.
Qed.

Lemma closes_of_app a b : closes_of (a ++ b) = closes_of a ++ closes_of b.
Proof.
  induction a as [|ev a IH]; simpl; [reflexivity|].
  destruct ev; simpl; rewrite ?IH; reflexivity.
Qed.

Section GroupCreation.

Variable env : Env.

(** Once the source address is known, every further socket is created
    the same way: one [socket()], one [bind], no helper. *)
Lemma create_sockets_source_set n : forall s,
  inet_family (sin_family (opt_srcaddr s)) ->
  sin_port (opt_srcaddr s) = 0 ->
  match create_sockets env n s with
  | (Exit st, _) => st = 1
  | (Ret socks, s') =>
      exists new,
        grows s s' new
        /\ List.length socks = n
        /\ Forall (fun sk => 0 <= fd sk) socks
        /\ opt_srcaddr s' = opt_srcaddr s
        /\ opt_dstaddr s' = opt_dstaddr s
        /\ socket_calls_of new = map rds_call socks
        /\ closes_of new = []
        /\ binds_of new = map (bind_call (opt_srcaddr s)) socks
        /\ settos_of new
           = (if opt_tos s =? 0 then []
              else map (settos_call (opt_tos s)) socks)
  end.
Proof.
  induction n as [|n IH]; intros s Hfam Hport.
  - simpl. unfold ret. exists [].
    split; [apply grows_refl|]. split; [reflexivity|].
    split; [constructor|].
    destruct (opt_tos s =? 0); repeat split.
  - simpl. unfold bind.
    pose proof (rds_socket_detail env s) as Hd.
    pose proof (rds_socket_spec env s) as (new0 & Hg0 & Hk0 & _).
    destruct (rds_socket env s) as [[sock|st] s1]; [|exact Hd].
    destruct Hd as (new1 & Hg1 & Hsock & Hfam1 & Hport1 & Hb1 & Ht1 & _ & _
                    & Hcase).
    destruct Hcase as [(_ & Hsc1 & Hcl1 & Hsrc1 & Hdst1) | (Hun & _)];
      [|exfalso; destruct Hfam as [Hf|Hf]; rewrite Hf in Hun;
        discriminate].
    rewrite (set_port_same _ Hport) in Hsrc1.
    assert (Htos : opt_tos s1 = opt_tos s) by (inversion Hk0; reflexivity).
    specialize (IH s1 Hfam1 Hport1).
    destruct (create_sockets env n s1) as [[rest|st] s2]; [|exact IH].
    destruct IH as (new2 & Hg2 & Hlen & Hfds & Hsrc2 & Hdst2 & Hsc2 & Hcl2
                    & Hb2 & Ht2).
    unfold ret. exists (new1 ++ new2).
    split; [eapply grows_trans; eassumption|].
    split; [simpl; congruence|].
    split; [constructor; assumption|].
    split; [congruence|]. split; [congruence|].
    split; [rewrite socket_calls_of_app, Hsc1, Hsc2; reflexivity|].
    split; [rewrite closes_of_app, Hcl1, Hcl2; reflexivity|].
    split.
    { rewrite binds_of_app, Hb1, Hb2, Hsrc1. reflexivity. }
    rewrite settos_of_app, Ht1, Ht2, Htos.
    destruct (opt_tos s =? 0); reflexivity.
Qed.

End GroupCreation.

Lemma sched_events_are_not_setup socks dst msglen evs :
  Forall (sched_event socks dst msglen) evs ->
  socket_calls_of evs = [] /\ binds_of evs = [] /\ settos_of evs = []
  /\ closes_of evs = [].
Proof.
  induction 1 as [|ev evs Hev _ IH]; simpl; [auto|].
  destruct Hev as [(k & r & e & _ & ->)
                  | [(k & r & p & _ & ->) | (c & i & ->)]];
    simpl; exact IH.
Qed.

Section RunDetail.

Variable env : Env.

(** The whole group: the first socket may need the source address
    guessed, the others never do. *)
Lemma create_sockets_detail n s :
  match create_sockets env (S n) s with
  | (Exit st, _) => st = 1
  | (Ret socks, s') =>
      exists new,
        grows s s' new
        /\ List.length socks = S n
        /\ Forall (fun sk => 0 <= fd sk) socks
        /\ inet_family (sin_family (opt_srcaddr s'))
        /\ sin_port (opt_srcaddr s') = 0
        /\ sin_family (opt_dstaddr s') = sin_family (opt_dstaddr s)
        /\ sin_addr (opt_dstaddr s') = sin_addr (opt_dstaddr s)
        /\ binds_of new = map (bind_call (opt_srcaddr s')) socks
        /\ settos_of new
           = (if opt_tos s =? 0 then []
              else map (settos_call (opt_tos s)) socks)
        /\ ((sin_family (opt_srcaddr s) <> AF_UNSPEC
             /\ opt_srcaddr s' = set_port 0 (opt_srcaddr s)
             /\ opt_dstaddr s' = opt_dstaddr s
             /\ socket_calls_of new = map rds_call socks
             /\ closes_of new = [])
            \/ (sin_family (opt_srcaddr s) = AF_UNSPEC
                /\ inet_family (sin_family (opt_dstaddr s))
                /\ sin_port (opt_dstaddr s') = 0
                /\ exists sk0 rest ufd,
                    socks = sk0 :: rest
                    /\ 0 <= ufd
                    /\ socket_calls_of new
                       = rds_call sk0
                           :: EvSocket (sin_family (opt_dstaddr s))
                                SOCK_DGRAM 0 ufd
                           :: map rds_call rest
                    /\ closes_of new = [ufd]))
  end.
Proof.
  simpl. unfold bind.
  pose proof (rds_socket_detail env s) as Hd.
  pose proof (rds_socket_spec env s) as (new0 & Hg0 & Hk0 & _).
  destruct (rds_socket env s) as [[sock|st] s1]; [|exact Hd].
  destruct Hd as (new1 & Hg1 & Hsock & Hfam1 & Hport1 & Hb1 & Ht1 & Hdf1
                  & Hda1 & Hcase).
  assert (Htos : opt_tos s1 = opt_tos s) by (inversion Hk0; reflexivity).
  pose proof (create_sockets_source_set env n s1 Hfam1 Hport1) as Hrest.
  destruct (create_sockets env n s1) as [[rest|st] s2]; [|exact Hrest].
  destruct Hrest as (new2 & Hg2 & Hlen & Hfds & Hsrc2 & Hdst2 & Hsc2 & Hcl2
                     & Hb2 & Ht2).
  unfold ret. exists (new1 ++ new2).
  split; [eapply grows_trans; eassumption|].
  split; [simpl; congruence|].
  split; [constructor; assumption|].
  rewrite Hsrc2, Hdst2.
  do 4 (split; [assumption|]).
  split; [rewrite binds_of_app, Hb1, Hb2; reflexivity|].
  split.
  { rewrite settos_of_app, Ht1, Ht2, Htos.
    destruct (opt_tos s =? 0); reflexivity. }
  rewrite socket_calls_of_app, closes_of_app, Hsc2, Hcl2.
  destruct Hcase as [(Hset & Hsc1 & Hcl1 & Hsrc1 & Hdst1)
                    | (Hun & Hdfam & Hdport & ufd & Hufd & Hsc1 & Hcl1)].
  - left. rewrite Hsc1, Hcl1. auto.
  - right. do 3 (split; [assumption|]).
    exists (mkSocket sock), rest, ufd. rewrite Hsc1, Hcl1. auto.
Qed.

Lemma run_test_unfold s :
  run_test env s
  = match create_sockets env (Z.to_nat (nsockets s)) s with
    | (Exit st, s1) => (Exit st, s1)
    | (Ret socks, s1) =>
        let t0 := env_gettimeofday env (trace s1) in
        match send_on_n_sockets_seq env socks (opt_dstaddr s1)
                (CInt.to_int (nsockets s1)) (CInt.to_int (opt_count s1))
                (sockaddr_len (sin_family (opt_dstaddr s1)))
                (emit (EvGettimeofday t0) s1) with
        | (Exit st, s3) => (Exit st, s3)
        | (Ret _, s3) =>
            let t1 := env_gettimeofday env (trace s3) in
            (Ret 0,
             emit (EvStdout
                     (OutSummary (CInt.to_int (nsockets s1))
                        (tdiff_of t1 t0)
                        (CInt.to_int
                           (CInt.wrap_u64 (opt_count s1 * nsockets s1)))))
                  (emit (EvGettimeofday t1) s3))
        end
    end.
Proof.
  unfold run_test, bind, get, sys_gettimeofday, printf, modify, ret,
    sockaddr_len.
  destruct (create_sockets env (Z.to_nat (nsockets s)) s)
    as [[socks|st] s1]; [|reflexivity].
  destruct (send_on_n_sockets_seq env socks (opt_dstaddr s1)
              (CInt.to_int (nsockets s1)) (CInt.to_int (opt_count s1))
              (if sin_family (opt_dstaddr s1) =? AF_INET
               then sizeof_sockaddr_in else sizeof_sockaddr_in6)
              (emit (EvGettimeofday (env_gettimeofday env (trace s1))) s1))
    as [[r|st] s3]; reflexivity.
Qed.

(** The anatomy of a run that returns: the group is created, the clock
    is read, the scheduler runs, the clock is read again and the summary
    is printed. *)
Lemma run_test_detail s r s' :
  run_test env s = (Ret r, s') ->
  exists socks s1 creation t0 sched t1 status s3,
    create_sockets env (Z.to_nat (nsockets s)) s = (Ret socks, s1)
    /\ send_on_n_sockets_seq env socks (opt_dstaddr s1)
         (CInt.to_int (nsockets s)) (CInt.to_int (opt_count s))
         (sockaddr_len (sin_family (opt_dstaddr s1)))
         (emit (EvGettimeofday t0) s1)
       = (Ret status, s3)
    /\ grows (emit (EvGettimeofday t0) s1) s3 sched
    /\ grows s s1 creation
    /\ knobs s1 = knobs s
    /\ sends_of creation = [] /\ stdout_of creation = []
    /\ Forall (sched_event
                 (firstn (Z.to_nat (CInt.to_int (nsockets s))) socks)
                 (opt_dstaddr s1)
                 (sockaddr_len (sin_family (opt_dstaddr s1)))) sched
    /\ grows s s'
         (creation ++ [EvGettimeofday t0] ++ sched
            ++ [EvGettimeofday t1;
                EvStdout
                  (OutSummary (CInt.to_int (nsockets s)) (tdiff_of t1 t0)
                     (CInt.to_int
                        (CInt.wrap_u64 (opt_count s * nsockets s))))])
    /\ config s'
       = (opt_count s1, opt_srcaddr s1, opt_dstaddr s1, opt_tos s1,
          use_siocoutq s1, nsockets s1)
    /\ r = 0.
Proof.
  rewrite run_test_unfold.
  destruct (create_sockets_spec env (Z.to_nat (nsockets s)) s)
    as (creation & Hg1 & Hk1 & Hs1 & Ho1 & _).
  destruct (create_sockets env (Z.to_nat (nsockets s)) s)
    as [[socks|st] s1]; [|discriminate].
  simpl in Hg1, Hk1. cbv zeta.
  set (t0 := env_gettimeofday env (trace s1)).
  destruct (scheduler_stays_within_group_aux env socks (opt_dstaddr s1)
              (CInt.to_int (nsockets s1)) (CInt.to_int (opt_count s1))
              (sockaddr_len (sin_family (opt_dstaddr s1)))
              (emit (EvGettimeofday t0) s1))
    as (status & s3 & sched & Hrun & Hg3 & Hc3 & Hall).
  rewrite Hrun. intros H. inversion H; subst r s'. clear H.
  assert (Hn : nsockets s1 = nsockets s) by (inversion Hk1; reflexivity).
  assert (Hcnt : opt_count s1 = opt_count s)
    by (inversion Hk1; reflexivity).
  rewrite Hn, Hcnt in *.
  exists socks, s1, creation, t0, sched, (env_gettimeofday env (trace s3)),
    status, s3.
  split; [reflexivity|]. split; [exact Hrun|]. split; [exact Hg3|].
  split; [exact Hg1|]. split; [exact Hk1|].
  split; [exact Hs1|]. split; [exact Ho1|]. split; [exact Hall|].
  split.
  { eapply grows_trans; [exact Hg1|].
    eapply grows_trans; [apply grows_emit|].
    eapply grows_trans; [exact Hg3|]. simpl. reflexivity. }
  split; [|reflexivity].
  unfold config in *. simpl in *. rewrite Hc3, Hn, Hcnt. reflexivity.
Qed.

End RunDetail.

Lemma clock_reads_of_app a b :
  clock_reads_of (a ++ b) = clock_reads_of a ++ clock_reads_of b.
Proof.
  induction a as [|ev a IH]; simpl; [reflexivity|].
  destruct ev; simpl; rewrite ?IH; reflexivity.
Qed.

Lemma sched_events_no_clock socks dst msglen evs :
  Forall (sched_event socks dst msglen) evs -> clock_reads_of evs = [].
Proof.
  induction 1 as [|ev evs Hev _ IH]; simpl; [auto|].
  destruct Hev as [(k & r & e & _ & ->)
                  | [(k & r & p & _ & ->) | (c & i & ->)]];
    simpl; exact IH.
Qed.

Lemma sends_of_nil_no_send evs sock d len r e :
  sends_of evs = [] -> ~ In (EvSendto sock d len r e) evs.
Proof.
  induction evs as [|ev evs IH]; simpl; [auto|].
  intros Hs [Heq|Hin].
  - subst ev. discriminate.
  - destruct ev; try discriminate; exact (IH Hs Hin).
Qed.

Section RunSetup.

Variable env : Env.

Lemma rds_socket_no_clock s :
  exists new,
    grows s (snd (rds_socket env s)) new
    /\ clock_reads_of new = [] /\ queries_of new = [].
Proof.
  unfold rds_socket, guess_source, sys_close, die_errno, die, bind, get,
    modify, exit, ret.
  run_all.
  all: eexists; split; [solve_grows|].
  all: simpl; auto.
Qed.

Lemma create_sockets_no_clock n : forall s,
  exists new,
    grows s (snd (create_sockets env n s)) new
    /\ clock_reads_of new = [] /\ queries_of new = [].
Proof.
  induction n as [|n IH]; intros s.
  - exists []. simpl. split; [apply grows_refl | auto].
  - simpl. unfold bind.
    destruct (rds_socket_no_clock s) as (new1 & Hg1 & Hc1 & Hq1).
    destruct (rds_socket env s) as [[sock|st] s1]; simpl in *.
    + destruct (IH s1) as (new2 & Hg2 & Hc2 & Hq2).
      destruct (create_sockets env n s1) as [[rest|st] s2]; simpl in *.
      all: exists (new1 ++ new2);
        rewrite clock_reads_of_app, queries_of_app, Hc1, Hc2, Hq1, Hq2;
        split; [eapply grows_trans; eassumption | auto].
    + exists new1. auto.
Qed.

(** Everything a run that returns has done to set up its group, read
    off the events of the whole run. *)
Lemma run_test_setup s r s' :
  run_test env s = (Ret r, s') ->
  0 < nsockets s ->
  exists socks,
    List.length socks = Z.to_nat (nsockets s)
    /\ rds_sockets_of (events_since s s') = map fd socks
    /\ inet_family (sin_family (opt_srcaddr s'))
    /\ sin_port (opt_srcaddr s') = 0
    /\ sin_family (opt_dstaddr s') = sin_family (opt_dstaddr s)
    /\ sin_addr (opt_dstaddr s') = sin_addr (opt_dstaddr s)
    /\ binds_of (events_since s s')
       = map (bind_call (opt_srcaddr s')) socks
    /\ settos_of (events_since s s')
       = (if opt_tos s =? 0 then []
          else map (settos_call (opt_tos s)) socks)
    /\ ((sin_family (opt_srcaddr s) <> AF_UNSPEC
         /\ opt_srcaddr s' = set_port 0 (opt_srcaddr s)
         /\ opt_dstaddr s' = opt_dstaddr s
         /\ socket_calls_of (events_since s s') = map rds_call socks
         /\ closes_of (events_since s s') = [])
        \/ (sin_family (opt_srcaddr s) = AF_UNSPEC
            /\ inet_family (sin_family (opt_dstaddr s))
            /\ sin_port (opt_dstaddr s') = 0
            /\ exists sk0 rest ufd,
                socks = sk0 :: rest
                /\ 0 <= ufd
                /\ socket_calls_of (events_since s s')
                   = rds_call sk0
                       :: EvSocket (sin_family (opt_dstaddr s))
                            SOCK_DGRAM 0 ufd
                       :: map rds_call rest
                /\ closes_of (events_since s s') = [ufd])).
Proof.
  intros Hrun Hpos.
  destruct (run_test_detail env s r s' Hrun)
    as (socks & s1 & creation & t0 & sched & t1 & status & s3 & Hcreate & _
        & _ & Hg1 & _ & _ & _ & Hall & Hg & Hcfg & _).
  destruct (sched_events_are_not_setup _ _ _ _ Hall)
    as (Hsc & Hb & Ht & Hcl).
  rewrite (grows_events_since _ _ _ Hg).
  rewrite !socket_calls_of_app, !binds_of_app, !settos_of_app,
    !closes_of_app, !rds_sockets_of_app.
  rewrite Hsc, Hb, Ht, Hcl, (no_socket_calls_no_rds _ Hsc).
  simpl. rewrite !app_nil_r.
  assert (Hsrc : opt_srcaddr s' = opt_srcaddr s1)
    by (inversion Hcfg; reflexivity).
  assert (Hdst : opt_dstaddr s' = opt_dstaddr s1)
    by (inversion Hcfg; reflexivity).
  rewrite Hsrc, Hdst.
  destruct (create_sockets_spec env (Z.to_nat (nsockets s)) s)
    as (new0 & Hg0 & _ & _ & _ & Hr0).
  rewrite Hcreate in Hg0, Hr0. simpl in Hg0, Hr0.
  destruct (Hr0 socks eq_refl) as [Hrds Hlen].
  rewrite (grows_unique _ _ _ _ Hg0 Hg1) in Hrds.
  destruct (Z.to_nat (nsockets s)) as [|n] eqn:Hn; [lia|].
  pose proof (create_sockets_detail env n s) as Hd.
  rewrite Hcreate in Hd.
  destruct Hd as (new & Hgn & _ & _ & Hfam & Hport & Hdf & Hda & Hbinds
                  & Htos & Hcase).
  rewrite (grows_unique _ _ _ _ Hgn Hg1) in *.
  exists socks.
  do 8 (split; [assumption|]). exact Hcase.
Qed.

End RunSetup.

(** ** What a run that returns has done *)

Lemma in_firstn_in {A} (n : nat) (l : list A) x :
  In x (firstn n l) -> In x l.
Proof.
  revert l. induction n as [|n IH]; intros l; destruct l as [|y l];
    simpl; try contradiction.
  intros [H|H]; [left; exact H | right; exact (IH _ H)].
Qed.

(** X9. In a run over a non-empty group that returns, the local source
    address is guessed at most once.  With a source address already set,
    the only [socket()] calls are those of the RDS sockets of the group
    and nothing is closed.  With none set, exactly one helper datagram
    socket of the destination's family is created, right after the first
    RDS socket, and it is closed again. *)
Theorem run_guesses_source_at_most_once env s r s' :
  run_test env s = (Ret r, s') ->
  0 < nsockets s ->
  (sin_family (opt_srcaddr s) <> AF_UNSPEC ->
   socket_calls_of (events_since s s')
   = map rds_call (map mkSocket (rds_sockets_of (events_since s s')))
   /\ closes_of (events_since s s') = [])
  /\ (sin_family (opt_srcaddr s) = AF_UNSPEC ->
      inet_family (sin_family (opt_dstaddr s))
      /\ exists sk0 rest ufd,
          map mkSocket (rds_sockets_of (events_since s s')) = sk0 :: rest
          /\ 0 <= ufd
          /\ socket_calls_of (events_since s s')
             = rds_call sk0
                 :: EvSocket (sin_family (opt_dstaddr s)) SOCK_DGRAM 0 ufd
                 :: map rds_call rest
          /\ closes_of (events_since s s') = [ufd]).
Proof.
  intros Hrun Hpos.
  destruct (run_test_setup env s r s' Hrun Hpos)
    as (socks & _ & Hrds & _ & _ & _ & _ & _ & _ & Hcase).
  rewrite Hrds, map_mkSocket_fd.
  destruct Hcase as [(Hset & _ & _ & Hsc & Hcl)
                    | (Hun & Hdf & _ & sk0 & rest & ufd & Hsk & Hufd & Hsc
                       & Hcl)].
  - split; [auto | contradiction].
  - split; [contradiction|]. intros _. split; [exact Hdf|].
    exists sk0, rest, ufd. auto.
Qed.

Lemma run_guesses_source_at_most_once_witness :
  (sin_family (opt_srcaddr scenario4_config) <> AF_UNSPEC ->
   socket_calls_of
     (events_since scenario4_config
        (snd (run_test Sim.env_ok scenario4_config)))
   = map rds_call
       (map mkSocket
          (rds_sockets_of
             (events_since scenario4_config
                (snd (run_test Sim.env_ok scenario4_config)))))
   /\ closes_of
        (events_since scenario4_config
           (snd (run_test Sim.env_ok scenario4_config))) = [])
  /\ (sin_family (opt_srcaddr scenario4_config) = AF_UNSPEC ->
      inet_family (sin_family (opt_dstaddr scenario4_config))
      /\ exists sk0 rest ufd,
          map mkSocket
            (rds_sockets_of
               (events_since scenario4_config
                  (snd (run_test Sim.env_ok scenario4_config))))
          = sk0 :: rest
          /\ 0 <= ufd
          /\ socket_calls_of
               (events_since scenario4_config
                  (snd (run_test Sim.env_ok scenario4_config)))
             = rds_call sk0
                 :: EvSocket (sin_family (opt_dstaddr scenario4_config))
                      SOCK_DGRAM 0 ufd
                 :: map rds_call rest
          /\ closes_of
               (events_since scenario4_config
                  (snd (run_test Sim.env_ok scenario4_config))) = [ufd]).
Proof.
  apply (run_guesses_source_at_most_once Sim.env_ok scenario4_config 0
           (snd (run_test Sim.env_ok scenario4_config))).
  - vm_compute. reflexivity.
  - vm_compute. reflexivity.
Defined.

(** X10. In a run over a non-empty group that returns, every RDS socket
    of the group is bound exactly once, in the order of creation, all to
    the same source address, whose port is 0 and whose family is AF_INET
    or AF_INET6, with the [sockaddr] length of that family; every [bind]
    returned 0.  A source address that was set beforehand is the one
    used, with its port cleared. *)
Theorem run_binds_every_socket_to_port_zero env s r s' :
  run_test env s = (Ret r, s') ->
  0 < nsockets s ->
  binds_of (events_since s s')
  = map (bind_call (opt_srcaddr s'))
      (map mkSocket (rds_sockets_of (events_since s s')))
  /\ List.length (rds_sockets_of (events_since s s'))
     = Z.to_nat (nsockets s)
  /\ inet_family (sin_family (opt_srcaddr s'))
  /\ sin_port (opt_srcaddr s') = 0
  /\ (sin_family (opt_srcaddr s) <> AF_UNSPEC ->
      opt_srcaddr s' = set_port 0 (opt_srcaddr s)).
Proof.
  intros Hrun Hpos.
  destruct (run_test_setup env s r s' Hrun Hpos)
    as (socks & Hlen & Hrds & Hfam & Hport & _ & _ & Hb & _ & Hcase).
  rewrite Hrds, map_mkSocket_fd, length_map.
  do 4 (split; [assumption|]).
  intros Hset.
  destruct Hcase as [(_ & Hsrc & _) | (Hun & _)];
    [exact Hsrc | contradiction].
Qed.

Lemma run_binds_every_socket_to_port_zero_witness :
  binds_of (events_since scenario4_config
              (snd (run_test Sim.env_ok scenario4_config)))
  = map (bind_call
           (opt_srcaddr (snd (run_test Sim.env_ok scenario4_config))))
      (map mkSocket
         (rds_sockets_of
            (events_since scenario4_config
               (snd (run_test Sim.env_ok scenario4_config)))))
  /\ List.length
       (rds_sockets_of
          (events_since scenario4_config
             (snd (run_test Sim.env_ok scenario4_config))))
     = Z.to_nat (nsockets scenario4_config)
  /\ inet_family
       (sin_family
          (opt_srcaddr (snd (run_test Sim.env_ok scenario4_config))))
  /\ sin_port (opt_srcaddr (snd (run_test Sim.env_ok scenario4_config)))
     = 0
  /\ (sin_family (opt_srcaddr scenario4_config) <> AF_UNSPEC ->
      opt_srcaddr (snd (run_test Sim.env_ok scenario4_config))
      = set_port 0 (opt_srcaddr scenario4_config)).
Proof.
  apply (run_binds_every_socket_to_port_zero Sim.env_ok scenario4_config 0).
  - vm_compute. reflexivity.
  - vm_compute. reflexivity.
Defined.

(** X11. In a run over a non-empty group that returns, the type of
    service is applied exactly when [opt_tos] is non-zero: then every RDS
    socket of the group had one [SIOCRDSSETTOS] call with that value, in
    the order of creation, and each returned 0; with [opt_tos] 0 no such
    call is made at all. *)
Theorem run_applies_tos_when_set env s r s' :
  run_test env s = (Ret r, s') ->
  0 < nsockets s ->
  settos_of (events_since s s')
  = (if opt_tos s =? 0 then []
     else map (settos_call (opt_tos s))
            (map mkSocket (rds_sockets_of (events_since s s')))).
Proof.
  intros Hrun Hpos.
  destruct (run_test_setup env s r s' Hrun Hpos)
    as (socks & _ & Hrds & _ & _ & _ & _ & _ & Ht & _).
  rewrite Hrds, map_mkSocket_fd. exact Ht.
Qed.

Lemma run_applies_tos_when_set_witness :
  settos_of (events_since (set_opt_tos 4 scenario4_config)
               (snd (run_test Sim.env_ok (set_opt_tos 4 scenario4_config))))
  = (if opt_tos (set_opt_tos 4 scenario4_config) =? 0 then []
     else map (settos_call (opt_tos (set_opt_tos 4 scenario4_config)))
            (map mkSocket
               (rds_sockets_of
                  (events_since (set_opt_tos 4 scenario4_config)
                     (snd (run_test Sim.env_ok
                             (set_opt_tos 4 scenario4_config))))))).
Proof.
  apply (run_applies_tos_when_set Sim.env_ok
           (set_opt_tos 4 scenario4_config) 0).
  - vm_compute. reflexivity.
  - vm_compute. reflexivity.
Defined.

(** X12. Every [sendto] of a run that returns goes out on an RDS socket
    created in this run, to the destination address as it stands at the
    end of the run, which has the family and the host address it had at
    the start, and with the [sockaddr] length of that family. *)
Theorem run_sends_to_the_destination env s r s' sock d len rv e :
  run_test env s = (Ret r, s') ->
  0 < nsockets s ->
  In (EvSendto sock d len rv e) (events_since s s') ->
  In sock (rds_sockets_of (events_since s s'))
  /\ d = opt_dstaddr s'
  /\ sin_family d = sin_family (opt_dstaddr s)
  /\ sin_addr d = sin_addr (opt_dstaddr s)
  /\ len = sockaddr_len (sin_family d).
Proof.
  intros Hrun Hpos Hin.
  destruct (run_test_setup env s r s' Hrun Hpos)
    as (socks & _ & Hrds & _ & _ & Hdf & Hda & _).
  destruct (run_test_detail env s r s' Hrun)
    as (socks' & s1 & creation & t0 & sched & t1 & status & s3 & Hcreate
        & _ & _ & Hg1 & _ & Hs1 & _ & Hall & Hg & Hcfg & _).
  assert (Hdst : opt_dstaddr s' = opt_dstaddr s1)
    by (inversion Hcfg; reflexivity).
  destruct (create_sockets_spec env (Z.to_nat (nsockets s)) s)
    as (new0 & Hg0 & _ & _ & _ & Hr0).
  rewrite Hcreate in Hg0, Hr0. simpl in Hg0, Hr0.
  destruct (Hr0 socks' eq_refl) as [Hrds' _].
  rewrite (grows_unique _ _ _ _ Hg0 Hg1) in Hrds'.
  assert (Hsame : map fd socks = map fd socks').
  { rewrite <- Hrds. rewrite (grows_events_since _ _ _ Hg).
    rewrite !rds_sockets_of_app.
    destruct (sched_events_are_not_setup _ _ _ _ Hall) as (Hsc & _).
    rewrite (no_socket_calls_no_rds _ Hsc). simpl.
    rewrite !app_nil_r. exact Hrds'. }
  rewrite Hrds, Hsame.
  rewrite (grows_events_since _ _ _ Hg) in Hin.
  apply in_app_or in Hin. destruct Hin as [Hin|Hin];
    [exfalso; exact (sends_of_nil_no_send _ _ _ _ _ _ Hs1 Hin)|].
  simpl in Hin. destruct Hin as [Hin|Hin]; [discriminate|].
  apply in_app_or in Hin. destruct Hin as [Hin|Hin].
  - rewrite Forall_forall in Hall. specialize (Hall _ Hin).
    destruct Hall as [(sk & r0 & e0 & Hsk & Heq)
                     | [(sk & r0 & p & _ & Heq) | (c & i & Heq)]];
      try discriminate.
    inversion Heq; subst.
    split; [apply in_map, (in_firstn_in _ _ _ Hsk)|].
    rewrite Hdst in *. auto.
  - simpl in Hin. destruct Hin as [Hin|[Hin|[]]]; discriminate.
Qed.

Lemma run_sends_to_the_destination_witness :
  In 3 (rds_sockets_of
          (events_since scenario4_config
             (snd (run_test Sim.env_ok scenario4_config))))
  /\ loopback_dst = opt_dstaddr (snd (run_test Sim.env_ok scenario4_config))
  /\ sin_family loopback_dst = sin_family (opt_dstaddr scenario4_config)
  /\ sin_addr loopback_dst = sin_addr (opt_dstaddr scenario4_config)
  /\ sizeof_sockaddr_in = sockaddr_len (sin_family loopback_dst).
Proof.
  apply (run_sends_to_the_destination Sim.env_ok scenario4_config 0
           (snd (run_test Sim.env_ok scenario4_config))
           3 loopback_dst sizeof_sockaddr_in 0 0).
  - vm_compute. reflexivity.
  - vm_compute. reflexivity.
  - vm_compute.
    let rec find := first [left; reflexivity | right; find] in find.
Defined.

(** X13. A run that returns reads the clock exactly twice: once after
    the whole group has been created and bound, once after the last send
    and spin.  Socket creation lies before the first reading, every send
    and every queue query between the two, and the elapsed time printed
    in the summary, the last event of the run, is computed from these two
    readings.  The run returns 0 whatever the scheduler returned. *)
Theorem run_times_only_the_scheduler env s r s' :
  run_test env s = (Ret r, s') ->
  r = 0
  /\ exists creation t0 sched t1,
      events_since s s'
      = creation ++ [EvGettimeofday t0] ++ sched
          ++ [EvGettimeofday t1;
              EvStdout
                (OutSummary (CInt.to_int (nsockets s)) (tdiff_of t1 t0)
                   (CInt.to_int
                      (CInt.wrap_u64 (opt_count s * nsockets s))))]
      /\ clock_reads_of (events_since s s') = [t0; t1]
      /\ sends_of creation = [] /\ queries_of creation = []
      /\ stdout_of creation = []
      /\ socket_calls_of sched = [] /\ binds_of sched = []
      /\ settos_of sched = [].
Proof.
  intros Hrun.
  destruct (run_test_detail env s r s' Hrun)
    as (socks & s1 & creation & t0 & sched & t1 & status & s3 & Hcreate
        & _ & _ & Hg1 & _ & Hs1 & Ho1 & Hall & Hg & _ & Hr).
  split; [exact Hr|].
  destruct (create_sockets_no_clock env (Z.to_nat (nsockets s)) s)
    as (new0 & Hg0 & Hc0 & Hq0).
  rewrite Hcreate in Hg0. simpl in Hg0.
  rewrite (grows_unique _ _ _ _ Hg0 Hg1) in Hc0, Hq0.
  destruct (sched_events_are_not_setup _ _ _ _ Hall) as (Hsc & Hb & Ht & _).
  exists creation, t0, sched, t1.
  rewrite (grows_events_since _ _ _ Hg).
  split; [reflexivity|].
  split.
  { rewrite !clock_reads_of_app, Hc0, (sched_events_no_clock _ _ _ _ Hall).
    reflexivity. }
  auto 10.
Qed.

Lemma run_times_only_the_scheduler_witness :
  0 = 0
  /\ exists creation t0 sched t1,
      events_since scenario4_config
        (snd (run_test Sim.env_ok scenario4_config))
      = creation ++ [EvGettimeofday t0] ++ sched
          ++ [EvGettimeofday t1;
              EvStdout
                (OutSummary (CInt.to_int (nsockets scenario4_config))
                   (tdiff_of t1 t0)
                   (CInt.to_int
                      (CInt.wrap_u64 (opt_count scenario4_config
                                      * nsockets scenario4_config))))]
      /\ clock_reads_of
           (events_since scenario4_config
              (snd (run_test Sim.env_ok scenario4_config))) = [t0; t1]
      /\ sends_of creation = [] /\ queries_of creation = []
      /\ stdout_of creation = []
      /\ socket_calls_of sched = [] /\ binds_of sched = []
      /\ settos_of sched = [].
Proof.
  apply (run_times_only_the_scheduler Sim.env_ok scenario4_config 0
           (snd (run_test Sim.env_ok scenario4_config))).
  vm_compute. reflexivity.
Defined.

(** X14. The packet count reaches the scheduler as an [int]: when the
    low 32 bits of [opt_count], read as a signed number, are zero or
    negative (a count of 2^32, say), no [sendto] call is made in the
    whole run, whether it returns or exits. *)
Theorem count_truncated_to_int_sends_nothing env s :
  CInt.to_int (opt_count s) <= 0 ->
  sends_of (events_since s (snd (run_test env s))) = [].
Proof.
  intros Hc.
  destruct (run_test_spec env s) as (new & Hg & _ & Hret & Hexit).
  rewrite (grows_events_since _ _ _ Hg).
  destruct (fst (run_test env s)) as [r|st] eqn:Hout.
  - destruct (Hret r eq_refl)
      as (_ & socks & status & tstart & tend & _ & _ & Hsh & _).
    replace (Z.to_nat (CInt.to_int (opt_count s))) with 0%nat in Hsh
      by lia.
    exact (seq_shape_zero _ _ _ Hsh).
  - exact (Hexit st eq_refl).
Qed.

Lemma count_truncated_to_int_sends_nothing_witness :
  sends_of
    (events_since (set_opt_count (2 ^ 32) scenario4_config)
       (snd (run_test Sim.env_ok (set_opt_count (2 ^ 32) scenario4_config))))
  = [].
Proof.
  apply (count_truncated_to_int_sends_nothing Sim.env_ok
           (set_opt_count (2 ^ 32) scenario4_config)).
  vm_compute. discriminate.
Defined.


(** ** Address parsing and the options in detail *)

Section OptionsDetail.

Variable env : Env.

Lemma parse_addr_detail ptr store s :
  (forall a s0, knobs (store a s0) = knobs s0
                /\ trace (store a s0) = trace s0) ->
  let r1 := fst (env_getaddrinfo env (trace s) ptr true) in
  let r2 := fst (env_getaddrinfo env
                   (EvGetaddrinfo ptr true r1 :: trace s) ptr false) in
  exists new,
    grows s (snd (parse_addr env ptr store s)) new
    /\ resolver_calls_of new
       = (if r1 =? 0 then [(ptr, true, 0)]
          else [(ptr, true, r1); (ptr, false, r2)])
    /\ match fst (parse_addr env ptr store s) with
       | Exit st => st = 1 /\ (r1 = 0 \/ r2 = 0)
       | Ret r =>
           (r = 0 /\ r1 <> 0 /\ r2 <> 0
            /\ config (snd (parse_addr env ptr store s)) = config s)
           \/ (r = 1 /\ (r1 = 0 \/ r2 = 0)
               /\ exists a s0,
                   snd (parse_addr env ptr store s) = store a s0
                   /\ config s0 = config s
                   /\ inet_family (sin_family a)
                   /\ a = (if r1 =? 0
                           then snd (env_getaddrinfo env (trace s) ptr true)
                           else snd (env_getaddrinfo env
                                       (EvGetaddrinfo ptr true r1 :: trace s)
                                       ptr false)))
       end.
Proof.
  intros Hstore. cbv zeta.
  unfold parse_addr, die, bind, get, modify, exit, ret, sys_getaddrinfo.
  simpl.
  destruct (env_getaddrinfo env (trace s) ptr true) as [r1 a1] eqn:H1.
  simpl.
  destruct (Z.eqb_spec r1 0) as [Hr1|Hr1]; simpl.
  - subst r1.
    destruct ((sin_family a1 =? AF_INET) || (sin_family a1 =? AF_INET6))
      eqn:Hfam; simpl.
    + destruct (Hstore a1 (emit (EvGetaddrinfo ptr true 0) s)) as [_ Ht].
      exists [EvGetaddrinfo ptr true 0].
      split; [unfold grows; rewrite Ht; reflexivity|].
      split; [reflexivity|].
      right. split; [reflexivity|]. split; [left; reflexivity|].
      exists a1, (emit (EvGetaddrinfo ptr true 0) s).
      split; [reflexivity|]. split; [reflexivity|].
      split; [|reflexivity].
      apply orb_true_iff in Hfam.
      destruct Hfam as [H|H]; apply Z.eqb_eq in H; [left | right]; exact H.
    + eexists. split; [solve_grows|]. split; [reflexivity|].
      split; [reflexivity | left; reflexivity].
  - destruct (env_getaddrinfo env (EvGetaddrinfo ptr true r1 :: trace s)
                ptr false) as [r2 a2] eqn:H2.
    simpl.
    destruct (Z.eqb_spec r2 0) as [Hr2|Hr2]; simpl.
    + subst r2.
      destruct ((sin_family a2 =? AF_INET) || (sin_family a2 =? AF_INET6))
        eqn:Hfam; simpl.
      * destruct (Hstore a2
                    (emit (EvGetaddrinfo ptr false 0)
                       (emit (EvGetaddrinfo ptr true r1) s))) as [_ Ht].
        exists [EvGetaddrinfo ptr true r1; EvGetaddrinfo ptr false 0].
        split; [unfold grows; rewrite Ht; reflexivity|].
        split; [reflexivity|].
        right. split; [reflexivity|]. split; [right; reflexivity|].
        exists a2, (emit (EvGetaddrinfo ptr false 0)
                      (emit (EvGetaddrinfo ptr true r1) s)).
        split; [reflexivity|]. split; [reflexivity|].
        split; [|reflexivity].
        apply orb_true_iff in Hfam.
        destruct Hfam as [H|H]; apply Z.eqb_eq in H; [left | right]; exact H.
      * eexists. split; [solve_grows|]. split; [reflexivity|].
        split; [reflexivity | right; reflexivity].
    + exists [EvGetaddrinfo ptr true r1; EvGetaddrinfo ptr false r2].
      split; [reflexivity|]. split; [reflexivity|].
      left. auto.
Qed.

End OptionsDetail.

Section OptionsMore.

Variable env : Env.

Lemma parse_long_nonneg a v :
  0 <= su_val a -> parse_long a = Some v -> 0 <= v.
Proof.
  intros Ha. unfold parse_long.
  assert (Hshl : forall k, 0 <= CInt.shl_u64 (su_val a) k).
  { intros k. unfold CInt.shl_u64, CInt.wrap_u64.
    apply Z.mod_pos_bound. lia. }
  destruct (su_end a) as [|c rest]; [intros H; inversion H; subst; exact Ha|].
  destruct ((c =? "k")%char || (c =? "K")%char);
    [destruct rest; intros H; inversion H; subst; apply Hshl|].
  destruct ((c =? "m")%char || (c =? "M")%char);
    [destruct rest; intros H; inversion H; subst; apply Hshl|].
  destruct ((c =? "g")%char || (c =? "G")%char);
    [destruct rest; intros H; inversion H; subst; apply Hshl|].
  discriminate.
Qed.

(** What the option loop has done to the variables when it returns. *)
Lemma getopt_loop_more opts : forall ss0 nss0 s ss nss s',
  getopt_loop env opts ss0 nss0 s = (Ret (ss, nss), s') ->
  existsb rejected_item opts = false
  /\ nsockets s' = final_nsockets opts (nsockets s)
  /\ (nsockets_min <= nsockets s <= nsockets_max ->
      nsockets_min <= nsockets s' <= nsockets_max)
  /\ use_siocoutq s' = use_siocoutq s || sets_spin opts
  /\ opt_dstaddr s' = opt_dstaddr s
  /\ (sets_source opts = false -> opt_srcaddr s' = opt_srcaddr s)
  /\ (sets_source opts = true -> inet_family (sin_family (opt_srcaddr s')))
  /\ (unsigned_counts opts -> 0 <= opt_count s -> 0 <= opt_count s').
Proof.
  induction opts as [|o rest IH]; intros ss0 nss0 s ss nss s' Hrun.
  - simpl in Hrun. unfold ret in Hrun. inversion Hrun; subst.
    unfold sets_source, sets_spin. simpl. rewrite orb_false_r.
    do 6 (split; [solve [auto]|]). split; [discriminate | auto].
  - destruct o as [a|a|a|a| |]; simpl in Hrun |- *.
    + (* -c *)
      destruct (parse_long a) as [v|] eqn:Hp;
        [|unfold die, bind, modify, exit in Hrun; discriminate].
      unfold bind, modify in Hrun.
      destruct (IH _ _ _ _ _ _ Hrun)
        as (Hrej & Hn & Hrange & Hspin & Hdst & Hsrc & Hinet & Hcnt).
      simpl in *. repeat split; auto; try (apply Hrange; assumption).
      intros Hu _. apply Hcnt.
      * intros a' Hin. apply Hu. right. exact Hin.
      * apply (parse_long_nonneg a v); [|exact Hp].
        apply (Hu a). left. reflexivity.
    + (* -n *)
      destruct (parse_long a) as [v|] eqn:Hp;
        [|unfold die, bind, modify, exit in Hrun; discriminate].
      unfold bind, modify in Hrun.
      destruct ((v <? nsockets_min) || (v >? nsockets_max)) eqn:Hbad;
        [unfold die, bind, modify, exit in Hrun; discriminate|].
      destruct (IH _ _ _ _ _ _ Hrun)
        as (Hrej & Hn & Hrange & Hspin & Hdst & Hsrc & Hinet & Hcnt).
      simpl in *.
      assert (Hv : nsockets_min <= v <= nsockets_max).
      { apply orb_false_iff in Hbad. destruct Hbad as [H1 H2].
        apply Z.ltb_ge in H1. rewrite Z.gtb_ltb in H2.
        apply Z.ltb_ge in H2. split; assumption. }
      repeat split; auto; try (apply Hrange; assumption).
      intros Hu H0. apply Hcnt; [|exact H0].
      intros a' Hin. apply Hu. right. exact Hin.
    + (* -I *)
      unfold bind in Hrun.
      pose proof (parse_addr_detail env a set_opt_srcaddr s
                    (set_opt_srcaddr_frame)) as Hd.
      cbv zeta in Hd. destruct Hd as (new & _ & _ & Hout).
      destruct (parse_addr env a set_opt_srcaddr s) as [[r|st] s1];
        [|discriminate].
      simpl in Hout.
      destruct Hout as [(-> & _) | (-> & _ & adr & s0 & Hs1 & Hcfg & Hfam & _)];
        [unfold die, bind, modify, exit in Hrun; simpl in Hrun; discriminate|].
      simpl in Hrun.
      destruct (IH _ _ _ _ _ _ Hrun)
        as (Hrej & Hn & Hrange & Hspin & Hdst & Hsrc & Hinet & Hcnt).
      subst s1. unfold config in Hcfg. inversion Hcfg as [[Hc1 Hc2 Hc3 Hc4 Hc5 Hc6]].
      simpl in *.
      rewrite Hc1, Hc3, Hc5, Hc6 in *.
      split; [exact Hrej|]. split; [exact Hn|]. split; [exact Hrange|].
      split; [exact Hspin|]. split; [exact Hdst|].
      split; [discriminate|].
      split.
      { intros _. destruct (sets_source rest) eqn:Hs.
        - apply Hinet. reflexivity.
        - rewrite (Hsrc eq_refl). exact Hfam. }
      intros Hu H0. apply Hcnt; [|exact H0].
      intros a' Hin. apply Hu. right. exact Hin.
    + (* -Q *)
      destruct (parse_long a) as [v|] eqn:Hp;
        [|unfold die, bind, modify, exit in Hrun; discriminate].
      unfold bind, modify in Hrun.
      destruct (IH _ _ _ _ _ _ Hrun)
        as (Hrej & Hn & Hrange & Hspin & Hdst & Hsrc & Hinet & Hcnt).
      simpl in *. repeat split; auto; try (apply Hrange; assumption).
      intros Hu H0. apply Hcnt; [|exact H0].
      intros a' Hin. apply Hu. right. exact Hin.
    + (* -s *)
      unfold bind, modify in Hrun.
      destruct (IH _ _ _ _ _ _ Hrun)
        as (Hrej & Hn & Hrange & Hspin & Hdst & Hsrc & Hinet & Hcnt).
      simpl in *. rewrite Hspin, orb_true_r.
      repeat split; auto; try (apply Hrange; assumption).
      intros Hu H0. apply Hcnt; [|exact H0].
      intros a' Hin. apply Hu. right. exact Hin.
    + unfold usage, bind, modify, exit in Hrun. discriminate.
Qed.

End OptionsMore.

(** ** [main] as a whole *)

Lemma resolver_events_are_quiet evs :
  Forall resolver_event evs ->
  socket_calls_of evs = [] /\ sends_of evs = [] /\ queries_of evs = []
  /\ stdout_of evs = [] /\ binds_of evs = [] /\ settos_of evs = []
  /\ closes_of evs = [] /\ clock_reads_of evs = [].
Proof.
  induction 1 as [|ev evs Hev _ IH]; simpl; [auto 10|].
  destruct Hev as [(n & b & r & ->) | (m & e & ->)]; simpl; exact IH.
Qed.

Section MainDetail.

Variable env : Env.

Lemma parse_addr_only_resolves ptr store s :
  (forall a s0, knobs (store a s0) = knobs s0
                /\ trace (store a s0) = trace s0) ->
  exists new,
    grows s (snd (parse_addr env ptr store s)) new
    /\ Forall resolver_event new.
Proof.
  intros Hstore.
  unfold parse_addr, die, bind, get, modify, exit, ret.
  run_all.
  all: simpl.
  all: eexists; split;
    [ unfold grows; try rewrite (proj2 (Hstore _ _)); solve_grows |].
  all: repeat (apply Forall_cons;
               [first [ left; do 3 eexists; reflexivity
                      | right; do 2 eexists; reflexivity ]|]).
  all: apply Forall_nil.
Qed.

Lemma getopt_loop_only_resolves opts : forall ss0 nss0 s,
  exists new,
    grows s (snd (getopt_loop env opts ss0 nss0 s)) new
    /\ Forall resolver_event new.
Proof.
  assert (Hdie : forall msg err, resolver_event (EvStderr msg err))
    by (intros; right; eauto).
  induction opts as [|o rest IH]; intros ss0 nss0 s.
  - exists []. split; [apply grows_refl | constructor].
  - destruct o as [a|a|a|a| |]; simpl;
      unfold die, usage, bind, modify, exit.
    + destruct (parse_long a) as [v|];
        [|simpl; eexists; split;
          [solve_grows | apply Forall_cons; [apply Hdie | apply Forall_nil]]].
      destruct (IH ss0 nss0 (set_opt_count v s)) as (new & Hg & Hall).
      exists new. split; [exact Hg | exact Hall].
    + destruct (parse_long a) as [z|];
        [|simpl; eexists; split;
          [solve_grows | apply Forall_cons; [apply Hdie | apply Forall_nil]]].
      destruct (_ || _).
      * simpl. eexists. split;
          [solve_grows | apply Forall_cons; [apply Hdie | apply Forall_nil]].
      * destruct (IH ss0 true (set_nsockets z s)) as (new & Hg & Hall).
        exists new. split; [exact Hg | exact Hall].
    + destruct (parse_addr_only_resolves a set_opt_srcaddr s
                  set_opt_srcaddr_frame) as (new1 & Hg1 & Hall1).
      destruct (parse_addr env a set_opt_srcaddr s) as [[r|st] s1];
        simpl in *.
      * destruct (r =? 0).
        -- exists (new1 ++ [EvStderr "Unknown source address <%s>" None]).
           split; [eapply grows_trans; [exact Hg1 | apply grows_emit]|].
           apply Forall_app. split; [exact Hall1|].
           apply Forall_cons; [apply Hdie | apply Forall_nil].
        -- destruct (IH true nss0 s1) as (new & Hg & Hall).
           exists (new1 ++ new).
           split; [eapply grows_trans; eassumption|].
           apply Forall_app. split; assumption.
      * exists new1. split; assumption.
    + destruct (parse_long a) as [v|];
        [|simpl; eexists; split;
          [solve_grows | apply Forall_cons; [apply Hdie | apply Forall_nil]]].
      destruct (IH ss0 nss0 (set_opt_tos v s)) as (new & Hg & Hall).
      exists new. split; [exact Hg | exact Hall].
    + destruct (IH ss0 nss0 (set_use_siocoutq true s)) as (new & Hg & Hall).
      exists new. split; [exact Hg | exact Hall].
    + simpl. eexists. split;
        [solve_grows | apply Forall_cons; [apply Hdie | apply Forall_nil]].
Qed.

End MainDetail.

Section MainRun.

Variable env : Env.

(** The state in which a run of [main] that returns entered
    [run_test], and what happened before. *)
Lemma main_run_state opts operands r s' :
  main env opts operands init_state = (Ret r, s') ->
  exists dst s3 pre,
    operands = [dst]
    /\ run_test env s3 = (Ret r, s')
    /\ grows init_state s3 pre
    /\ Forall resolver_event pre
    /\ existsb rejected_item opts = false
    /\ opt_count s3 = final_count opts 0
    /\ nsockets s3 = resolved_nsockets opts
    /\ use_siocoutq s3 = sets_spin opts
    /\ inet_family (sin_family (opt_dstaddr s3))
    /\ (sets_source opts = false ->
        sin_family (opt_srcaddr s3) = AF_UNSPEC)
    /\ (sets_source opts = true ->
        inet_family (sin_family (opt_srcaddr s3))
        /\ sin_family (opt_dstaddr s3) = sin_family (opt_srcaddr s3))
    /\ (unsigned_counts opts ->
        nsockets_min <= nsockets s3 <= nsockets_max).
Proof.
  intros Hmain.
  destruct (main_cases env opts operands)
    as [(st & s'' & Hm & _)
       | (ss & nss & s1 & dst & rr & s2 & Hop & Hloop & Hparse & Hrr & Hfam
          & Hrun & _ & _ & Hcnt & Hnss & Hss & Hns)];
    [congruence|].
  rewrite Hrun in Hmain.
  destruct (getopt_loop_more env opts _ _ _ _ _ _ Hloop)
    as (Hrej & Hn1 & Hrange1 & Hspin1 & Hdst1 & Hsrc1 & Hinet1 & Hnonneg1).
  destruct (getopt_loop_only_resolves env opts false false init_state)
    as (new1 & Hg1 & Hall1).
  rewrite Hloop in Hg1. simpl in Hg1, Hn1, Hspin1, Hsrc1, Hnonneg1.
  pose proof (parse_addr_detail env dst set_opt_dstaddr s1
                set_opt_dstaddr_frame) as Hd.
  destruct (parse_addr_only_resolves env dst set_opt_dstaddr s1
              set_opt_dstaddr_frame) as (new2 & Hg2 & Hall2).
  cbv zeta in Hd. destruct Hd as (_ & _ & _ & Hout).
  rewrite Hparse in Hout, Hg2. simpl in Hout, Hg2.
  destruct Hout as [(-> & _) | (_ & _ & adr & s0 & Hs2 & Hcfg & Hfamd & _)];
    [contradiction|].
  unfold config in Hcfg.
  inversion Hcfg as [[Hc1 Hc2 Hc3 Hc4 Hc5 Hc6]]. clear Hcfg.
  assert (Hcount2 : opt_count s2 = opt_count s1) by (subst s2; exact Hc1).
  assert (Hsrc2 : opt_srcaddr s2 = opt_srcaddr s1) by (subst s2; exact Hc2).
  assert (Hdst2 : opt_dstaddr s2 = adr) by (subst s2; reflexivity).
  assert (Hspin2 : use_siocoutq s2 = use_siocoutq s1)
    by (subst s2; exact Hc5).
  assert (Hn2 : nsockets s2 = nsockets s1) by (subst s2; exact Hc6).
  clear Hs2 Hc1 Hc2 Hc3 Hc4 Hc5 Hc6 s0.
  assert (Hcl : opt_count (clamped nss s2) = opt_count s2
                /\ opt_srcaddr (clamped nss s2) = opt_srcaddr s2
                /\ opt_dstaddr (clamped nss s2) = opt_dstaddr s2
                /\ use_siocoutq (clamped nss s2) = use_siocoutq s2).
  { unfold clamped.
    destruct (negb nss && negb (opt_count s2 =? 0)
              && (opt_count s2 <? nsockets s2));
      simpl; repeat split; reflexivity. }
  destruct Hcl as (Hcl1 & Hcl2 & Hcl3 & Hcl4).
  assert (Hres : nsockets (clamped nss s2) = resolved_nsockets opts).
  { unfold clamped, resolved_nsockets. rewrite <- Hnss.
    destruct nss; simpl.
    - congruence.
    - rewrite (Hns eq_refl), Hcnt.
      destruct (negb (final_count opts 0 =? 0) && (final_count opts 0 <? 8));
        simpl; [reflexivity | exact (Hns eq_refl)]. }
  exists dst, (clamped nss s2), (new1 ++ new2).
  split; [exact Hop|]. split; [exact Hmain|].
  split; [apply grows_clamped; eapply grows_trans; eassumption|].
  split; [apply Forall_app; split; assumption|].
  split; [exact Hrej|].
  split; [congruence|]. split; [exact Hres|]. split; [congruence|].
  rewrite Hcl2, Hcl3, Hsrc2, Hdst2.
  split; [exact Hfamd|].
  split; [intros Hf; rewrite (Hsrc1 Hf); reflexivity|].
  split.
  { intros Ht. split; [exact (Hinet1 Ht)|].
    rewrite Hss, Ht, Hdst2, Hsrc2 in Hfam. simpl in Hfam.
    apply negb_false_iff, Z.eqb_eq in Hfam. exact Hfam. }
  intros Hu. rewrite Hres. unfold resolved_nsockets.
  destruct (sets_nsockets opts).
  - rewrite <- Hn1. apply Hrange1. simpl.
    unfold nsockets_min, nsockets_max. lia.
  - assert (H0 : 0 <= final_count opts 0).
    { rewrite <- Hcnt, Hcount2. apply Hnonneg1; [exact Hu | lia]. }
    unfold nsockets_min, nsockets_max.
    destruct (Z.eqb_spec (final_count opts 0) 0); simpl; [lia|].
    destruct (Z.ltb_spec (final_count opts 0) 8); lia.
Qed.

End MainRun.


(** X16. Unless exactly one operand (the destination) is left after the
    options, [main] exits with status 1 without having made a single
    [socket()] call or send. *)
Theorem main_needs_one_destination env opts operands :
  List.length operands <> 1%nat ->
  exists s',
    main env opts operands init_state = (Exit 1, s')
    /\ socket_calls_of (events_since init_state s') = []
    /\ sends_of (events_since init_state s') = [].
Proof.
  intros Hlen.
  destruct (main_cases env opts operands)
    as [(st & s' & Hm & Hst & Hs & Hk)
       | (ss & nss & s1 & dst & rr & s2 & Hop & _)].
  - subst st. exists s'. auto.
  - subst operands. simpl in Hlen. contradiction.
Qed.

Lemma main_needs_one_destination_witness :
  exists s',
    main Sim.env_ok [Opt_s] [loopback4; loopback6] init_state = (Exit 1, s')
    /\ socket_calls_of (events_since init_state s') = []
    /\ sends_of (events_since init_state s') = [].
Proof.
  apply (main_needs_one_destination Sim.env_ok [Opt_s]
           [loopback4; loopback6]).
  simpl. discriminate.
Defined.

(** X17. If any option is one that [main] refuses (an unknown option, a
    packet count, group size or type of service that [parse_long]
    rejects, a group size below 1 or above 32), the program exits with
    status 1 without having made a single [socket()] call or send,
    wherever the option stands and whatever the other options are. *)
Theorem main_refuses_bad_options env opts operands :
  existsb rejected_item opts = true ->
  exists s',
    main env opts operands init_state = (Exit 1, s')
    /\ socket_calls_of (events_since init_state s') = []
    /\ sends_of (events_since init_state s') = [].
Proof.
  intros Hbad.
  destruct (main_cases env opts operands)
    as [(st & s' & Hm & Hst & Hs & Hk)
       | (ss & nss & s1 & dst & rr & s2 & _ & Hloop & _)].
  - subst st. exists s'. auto.
  - destruct (getopt_loop_more env opts _ _ _ _ _ _ Hloop) as (Hrej & _).
    congruence.
Qed.

Lemma main_refuses_bad_options_witness :
  (exists s',
      main Sim.env_ok [Opt_c (mkStrtoull 2 ""); Opt_n (mkStrtoull 33 "")]
        [loopback4] init_state = (Exit 1, s')
      /\ socket_calls_of (events_since init_state s') = []
      /\ sends_of (events_since init_state s') = [])
  /\ (exists s',
         main Sim.env_ok [Opt_n (mkStrtoull 0 ""); Opt_s]
           [loopback4] init_state = (Exit 1, s')
         /\ socket_calls_of (events_since init_state s') = []
         /\ sends_of (events_since init_state s') = []).
Proof.
  split.
  - apply (main_refuses_bad_options Sim.env_ok
             [Opt_c (mkStrtoull 2 ""); Opt_n (mkStrtoull 33 "")]
             [loopback4]).
    reflexivity.
  - apply (main_refuses_bad_options Sim.env_ok
             [Opt_n (mkStrtoull 0 ""); Opt_s] [loopback4]).
    reflexivity.
Defined.

(** X18. With packet counts that [strtoull] can return, a run of [main]
    that returns has used a group of at least 1 and at most 32 sockets:
    [nsockets] is in that range, exactly that many RDS sockets were
    created, and the summary line, the last event of the run, reports
    that number of sockets. *)
Theorem main_group_size_in_range env opts operands r s' :
  unsigned_counts opts ->
  main env opts operands init_state = (Ret r, s') ->
  nsockets_min <= nsockets s' <= nsockets_max
  /\ List.length (rds_sockets_of (events_since init_state s'))
     = Z.to_nat (nsockets s')
  /\ exists tdiff packets,
      hd_error (trace s')
      = Some (EvStdout (OutSummary (nsockets s') tdiff packets)).
Proof.
  intros Hu Hmain.
  destruct (main_run_state env opts operands r s' Hmain)
    as (dst & s3 & pre & _ & Hrun & Hgpre & Hpre & _ & _ & _ & _ & _ & _ & _
        & Hrange).
  specialize (Hrange Hu).
  destruct (resolver_events_are_quiet _ Hpre) as (Hk & _).
  destruct (run_test_spec env s3) as (new & Hg & Hkn & Hret & _).
  rewrite Hrun in Hg, Hkn, Hret. simpl in Hg, Hkn, Hret.
  destruct (Hret r eq_refl)
    as (_ & socks & status & tstart & tend & Hlen & Hrds & _ & Hsum).
  assert (Hn : nsockets s' = nsockets s3) by (inversion Hkn; reflexivity).
  rewrite Hn.
  split; [exact Hrange|].
  split.
  { rewrite (grows_events_since _ _ _ (grows_trans _ _ _ _ _ Hgpre Hg)).
    rewrite rds_sockets_of_app, (no_socket_calls_no_rds _ Hk), Hrds.
    simpl. rewrite length_map. exact Hlen. }
  rewrite Hsum.
  rewrite (to_int_small (nsockets s3))
    by (unfold nsockets_min, nsockets_max in Hrange; lia).
  eauto.
Qed.

Lemma main_group_size_in_range_witness :
  nsockets_min <= nsockets (snd scenario4_run) <= nsockets_max
  /\ List.length (rds_sockets_of (events_since init_state (snd scenario4_run)))
     = Z.to_nat (nsockets (snd scenario4_run))
  /\ exists tdiff packets,
      hd_error (trace (snd scenario4_run))
      = Some (EvStdout
                (OutSummary (nsockets (snd scenario4_run)) tdiff packets)).
Proof.
  apply (main_group_size_in_range
           (Sim.env_send_fails_after 4 Sim.ECONNREFUSED)
           [Opt_n (mkStrtoull 8 ""); Opt_c (mkStrtoull 2 "")] [loopback4] 0).
  - intros a [H|[H|[]]]; inversion H; subst; simpl; lia.
  - vm_compute. reflexivity.
Defined.

(** X19. A group size given with [-n] is never clamped: a run of [main]
    that returns has used the value of the last [-n], whatever the packet
    count.  Without [-n], a packet count of 0 or of 8 and more leaves the
    default of 8 sockets. *)
Theorem explicit_group_size_is_kept env opts operands r s' :
  main env opts operands init_state = (Ret r, s') ->
  (sets_nsockets opts = true -> nsockets s' = final_nsockets opts 8)
  /\ (sets_nsockets opts = false ->
      final_count opts 0 = 0 \/ 8 <= final_count opts 0 ->
      nsockets s' = 8).
Proof.
  intros Hmain.
  destruct (main_run_state env opts operands r s' Hmain)
    as (dst & s3 & pre & _ & Hrun & _ & _ & _ & _ & Hres & _).
  destruct (run_test_spec env s3) as (new & _ & Hkn & _).
  rewrite Hrun in Hkn. simpl in Hkn.
  assert (Hn : nsockets s' = nsockets s3) by (inversion Hkn; reflexivity).
  rewrite Hn, Hres. unfold resolved_nsockets.
  split; intros Hset; rewrite Hset; [reflexivity|].
  intros [Hz|Hbig].
  - rewrite Hz. reflexivity.
  - destruct (Z.ltb_spec (final_count opts 0) 8); [lia|].
    rewrite andb_false_r. reflexivity.
Qed.

Lemma explicit_group_size_is_kept_witness :
  (sets_nsockets [Opt_n (mkStrtoull 8 ""); Opt_c (mkStrtoull 2 "")] = true ->
   nsockets (snd scenario4_run)
   = final_nsockets [Opt_n (mkStrtoull 8 ""); Opt_c (mkStrtoull 2 "")] 8)
  /\ (sets_nsockets [Opt_n (mkStrtoull 8 ""); Opt_c (mkStrtoull 2 "")]
      = false ->
      final_count [Opt_n (mkStrtoull 8 ""); Opt_c (mkStrtoull 2 "")] 0 = 0
      \/ 8 <= final_count
                [Opt_n (mkStrtoull 8 ""); Opt_c (mkStrtoull 2 "")] 0 ->
      nsockets (snd scenario4_run) = 8).
Proof.
  apply (explicit_group_size_is_kept
           (Sim.env_send_fails_after 4 Sim.ECONNREFUSED)
           [Opt_n (mkStrtoull 8 ""); Opt_c (mkStrtoull 2 "")] [loopback4] 0).
  vm_compute. reflexivity.
Defined.



(** X21. In a run of [main] that returns (packet counts being what
    [strtoull] can return): with [-I], no helper socket is created, the
    only [socket()] calls are those of the RDS sockets, nothing is closed,
    and source and destination have the same family; without [-I],
    exactly one helper datagram socket of the destination's family is
    created, right after the first RDS socket, and closed again. *)
Theorem main_guesses_source_only_without_option
        env opts operands r s' :
  unsigned_counts opts ->
  main env opts operands init_state = (Ret r, s') ->
  (sets_source opts = true ->
   socket_calls_of (events_since init_state s')
   = map rds_call
       (map mkSocket (rds_sockets_of (events_since init_state s')))
   /\ closes_of (events_since init_state s') = []
   /\ sin_family (opt_srcaddr s') = sin_family (opt_dstaddr s'))
  /\ (sets_source opts = false ->
      exists sk0 rest ufd,
        map mkSocket (rds_sockets_of (events_since init_state s'))
        = sk0 :: rest
        /\ socket_calls_of (events_since init_state s')
           = rds_call sk0
               :: EvSocket (sin_family (opt_dstaddr s')) SOCK_DGRAM 0 ufd
               :: map rds_call rest
        /\ closes_of (events_since init_state s') = [ufd]).
Proof.
  intros Hu Hmain.
  destruct (main_run_state env opts operands r s' Hmain)
    as (dst & s3 & pre & _ & Hrun & Hgpre & Hpre & _ & _ & _ & _ & _
        & Hnosrc & Hsrc & Hrange).
  specialize (Hrange Hu).
  assert (Hpos : 0 < nsockets s3)
    by (unfold nsockets_min in Hrange; lia).
  destruct (resolver_events_are_quiet _ Hpre)
    as (Hkpre & _ & _ & _ & _ & _ & Hclpre & _).
  destruct (run_test_setup env s3 r s' Hrun Hpos)
    as (socks & _ & Hrds & _ & _ & Hdf & _ & _ & _ & Hcase).
  destruct (run_test_spec env s3) as (new & Hg & _).
  rewrite Hrun in Hg. simpl in Hg.
  rewrite (grows_events_since _ _ _ Hg) in Hrds, Hcase.
  rewrite (grows_events_since _ _ _ (grows_trans _ _ _ _ _ Hgpre Hg)).
  rewrite !socket_calls_of_app, !closes_of_app, !rds_sockets_of_app.
  rewrite Hkpre, Hclpre, (no_socket_calls_no_rds _ Hkpre), Hrds.
  rewrite !app_nil_l, map_mkSocket_fd.
  split.
  - intros Ht. destruct (Hsrc Ht) as [Hinet Hsame].
    destruct Hcase as [(_ & Hsrc' & Hdst' & Hsc & Hcl) | (Hun & _)].
    + split; [exact Hsc|]. split; [exact Hcl|].
      rewrite Hsrc', Hdst'. simpl. symmetry. exact Hsame.
    + exfalso. destruct Hinet as [H|H]; rewrite H in Hun; discriminate.
  - intros Hf. specialize (Hnosrc Hf).
    destruct Hcase as [(Hset & _)
                      | (_ & _ & _ & sk0 & rest & ufd & Hsk & _ & Hsc & Hcl)];
      [contradiction|].
    exists sk0, rest, ufd. rewrite Hdf. auto.
Qed.

Lemma main_guesses_source_only_without_option_witness :
  (sets_source [Opt_c (mkStrtoull 2 "")] = true ->
   socket_calls_of (events_since init_state (snd scenario3_run))
   = map rds_call
       (map mkSocket
          (rds_sockets_of (events_since init_state (snd scenario3_run))))
   /\ closes_of (events_since init_state (snd scenario3_run)) = []
   /\ sin_family (opt_srcaddr (snd scenario3_run))
      = sin_family (opt_dstaddr (snd scenario3_run)))
  /\ (sets_source [Opt_c (mkStrtoull 2 "")] = false ->
      exists sk0 rest ufd,
        map mkSocket
          (rds_sockets_of (events_since init_state (snd scenario3_run)))
        = sk0 :: rest
        /\ socket_calls_of (events_since init_state (snd scenario3_run))
           = rds_call sk0
               :: EvSocket (sin_family (opt_dstaddr (snd scenario3_run)))
                    SOCK_DGRAM 0 ufd
               :: map rds_call rest
        /\ closes_of (events_since init_state (snd scenario3_run)) = [ufd]).
Proof.
  apply (main_guesses_source_only_without_option Sim.env_ok
           [Opt_c (mkStrtoull 2 "")] [loopback4] 0).
  - intros a [H|[]]; inversion H; subst; simpl; lia.
  - vm_compute. reflexivity.
Defined.

(** X22. [parse_addr] asks the resolver for a numeric interpretation
    first and falls back to a full lookup exactly when that fails: one
    [getaddrinfo] call when the numeric one succeeds, two otherwise.  It
    returns 0, leaving every option variable as it was, exactly when both
    fail; when it returns 1 it has stored the address of the lookup that
    succeeded, whose family is AF_INET or AF_INET6; any other family
    makes it exit with status 1. *)
Theorem parse_addr_tries_numeric_first env ptr store s :
  (forall a s0, knobs (store a s0) = knobs s0
                /\ trace (store a s0) = trace s0) ->
  let r1 := fst (env_getaddrinfo env (trace s) ptr true) in
  let r2 := fst (env_getaddrinfo env
                   (EvGetaddrinfo ptr true r1 :: trace s) ptr false) in
  let run := parse_addr env ptr store s in
  resolver_calls_of (events_since s (snd run))
  = (if r1 =? 0 then [(ptr, true, 0)]
     else [(ptr, true, r1); (ptr, false, r2)])
  /\ (fst run = Ret 0 \/ fst run = Ret 1 \/ fst run = Exit 1)
  /\ (fst run = Ret 0 <-> r1 <> 0 /\ r2 <> 0)
  /\ (fst run = Ret 0 -> config (snd run) = config s)
  /\ (fst run = Ret 1 ->
      exists a s0,
        snd run = store a s0
        /\ config s0 = config s
        /\ inet_family (sin_family a)
        /\ a = (if r1 =? 0
                then snd (env_getaddrinfo env (trace s) ptr true)
                else snd (env_getaddrinfo env
                            (EvGetaddrinfo ptr true r1 :: trace s)
                            ptr false))).
Proof.
  intros Hstore. cbv zeta.
  pose proof (parse_addr_detail env ptr store s Hstore) as Hd.
  cbv zeta in Hd. destruct Hd as (new & Hg & Hcalls & Hout).
  rewrite (grows_events_since _ _ _ Hg).
  split; [exact Hcalls|].
  destruct (fst (parse_addr env ptr store s)) as [r|st].
  - destruct Hout as [(-> & H1 & H2 & Hcfg) | (-> & Hok & Hst)].
    + split; [auto|]. split; [tauto|]. split; [auto | discriminate].
    + split; [auto|].
      split; [split; [discriminate | intros [H1 H2]; lia]|].
      split; [discriminate | auto].
  - destruct Hout as [-> Hok]. split; [auto|].
    split; [split; [discriminate | intros [H1 H2]; lia]|].
    split; discriminate.
Qed.

Lemma parse_addr_tries_numeric_first_witness :
  let r1 := fst (env_getaddrinfo Sim.env_ok (trace init_state)
                   loopback6 true) in
  let r2 := fst (env_getaddrinfo Sim.env_ok
                   (EvGetaddrinfo loopback6 true r1 :: trace init_state)
                   loopback6 false) in
  let run := parse_addr Sim.env_ok loopback6 set_opt_dstaddr init_state in
  resolver_calls_of (events_since init_state (snd run))
  = (if r1 =? 0 then [(loopback6, true, 0)]
     else [(loopback6, true, r1); (loopback6, false, r2)])
  /\ (fst run = Ret 0 \/ fst run = Ret 1 \/ fst run = Exit 1)
  /\ (fst run = Ret 0 <-> r1 <> 0 /\ r2 <> 0)
  /\ (fst run = Ret 0 -> config (snd run) = config init_state)
  /\ (fst run = Ret 1 ->
      exists a s0,
        snd run = set_opt_dstaddr a s0
        /\ config s0 = config init_state
        /\ inet_family (sin_family a)
        /\ a = (if r1 =? 0
                then snd (env_getaddrinfo Sim.env_ok (trace init_state)
                            loopback6 true)
                else snd (env_getaddrinfo Sim.env_ok
                            (EvGetaddrinfo loopback6 true r1
                               :: trace init_state)
                            loopback6 false))).
Proof.
  apply (parse_addr_tries_numeric_first Sim.env_ok loopback6
           set_opt_dstaddr init_state).
  intros a s0. split; reflexivity.
Defined.
